(** * saskatoon/member/admin.py: the administrative layer over accounts

    A shallow embedding of the forms and bulk actions that
    [member/admin.py] registers for [AuthUser], and the properties of
    the role-management layer that follow from the code.

    The model comes first, one module per class of the source:
    - [CustomUserCreationForm]: [clean_password2] and [save];
    - [CustomUserChangeForm]: [clean_password];
    - [AuthUserAdmin]: the display columns and the bulk actions;
    then the predicates the statements use and a few concrete accounts,
    then the lemmas on runs and the properties of the actions and forms.

    The database is explicit: a table of accounts keyed by primary key,
    the table of groups, and the rows of the many-to-many relation between
    them.  Every statement sent to the database may fail; which one does is
    fixed by a fault schedule indexed by the number of statements already
    sent, so that a result stated for every schedule covers every pattern
    of persistence errors. *)

From stdpp Require Import gmap strings list fin_maps.

(** ** Python values and exceptions *)

(** The values a form's [cleaned_data] holds for a [CharField]: a string,
    or [None] (what [dict.get] answers for a missing key). *)
Inductive PyVal : Type :=
  | PyNone
  | PyStr (s : string).

#[global] Instance PyVal_eq_dec : EqDecision PyVal.
Proof. solve_decision. Defined.

(** Python's truth value: [None] and the empty string are false. *)
Definition truthy (v : PyVal) : bool :=
  match v with
  | PyNone => false
  | PyStr s => bool_decide (s ≠ EmptyString)
  end.

(** [d.get(key)] on a dict. *)
Definition dict_get (d : gmap string PyVal) (key : string) : PyVal :=
  default PyNone (d !! key).

Inductive Exn : Type :=
  | ValidationError (msg : string)
  | KeyError (key : string)
  | ValueError
  | MultipleObjectsReturned
  | DatabaseError.

#[global] Instance Exn_eq_dec : EqDecision Exn.
Proof. solve_decision. Defined.

Inductive Result (A : Type) : Type :=
  | Ok (a : A)
  | Raise (e : Exn).
Arguments Ok {A} a.
Arguments Raise {A} e.

(** ** The database *)

(** A row of the accounts table; an [AuthUser] object in memory carries
    the same columns.  [pk] is [None] on an object that was never saved. *)
Record AuthUser : Type := mkAuthUser {
  pk : option nat;
  email : string;
  password : string;
  is_active : bool;
  is_staff : bool;
  is_superuser : bool
}.

#[global] Instance AuthUser_eq_dec : EqDecision AuthUser.
Proof. solve_decision. Defined.

(** Attribute assignment on an object in memory. *)
Definition set_pk (k : nat) (u : AuthUser) : AuthUser :=
  mkAuthUser (Some k) (email u) (password u) (is_active u) (is_staff u) (is_superuser u).
Definition set_is_active (b : bool) (u : AuthUser) : AuthUser :=
  mkAuthUser (pk u) (email u) (password u) b (is_staff u) (is_superuser u).
Definition set_is_staff (b : bool) (u : AuthUser) : AuthUser :=
  mkAuthUser (pk u) (email u) (password u) (is_active u) b (is_superuser u).
Definition set_is_superuser (b : bool) (u : AuthUser) : AuthUser :=
  mkAuthUser (pk u) (email u) (password u) (is_active u) (is_staff u) b.
Definition set_password_hash (h : string) (u : AuthUser) : AuthUser :=
  mkAuthUser (pk u) (email u) h (is_active u) (is_staff u) (is_superuser u).

(** A row of [django.contrib.auth.models.Group]. *)
Record Group : Type := mkGroup {
  gid : nat;
  name : string
}.

#[global] Instance Group_eq_dec : EqDecision Group.
Proof. solve_decision. Defined.

(** The tables.  [auth_group] and [auth_user_groups] are kept as lists of
    rows, so that a duplicate row is expressible and its absence is a
    property of the operations, not of the type. *)
Record DB : Type := mkDB {
  users : gmap nat AuthUser;
  auth_group : list Group;
  auth_user_groups : list (nat * nat)
}.

(** The primary key an inserted account receives. *)
Definition next_pk (d : DB) : nat := S (max_list (map_to_list (users d)).*1).

(** The database together with the number of statements sent so far. *)
Record World : Type := mkWorld {
  db : DB;
  clock : nat
}.

(** ** Computations: state and exceptions *)

Definition M (A : Type) : Type := World → World * Result A.

#[global] Instance M_ret : MRet M := λ A a w, (w, Ok a).
#[global] Instance M_bind : MBind M := λ A B f m w,
  match m w with
  | (w', Ok a) => f a w'
  | (w', Raise e) => (w', Raise e)
  end.

Definition raise {A : Type} (e : Exn) : M A := λ w, (w, Raise e).

(** [for u in queryset: body(u)].  The objects of the queryset are mutated
    in place by the body; the loop hands them back as they are when it
    ends.  An exception in the body leaves the loop. *)
Fixpoint for_each (body : AuthUser → M AuthUser) (queryset : list AuthUser)
    : M (list AuthUser) :=
  match queryset with
  | [] => mret []
  | u :: rest =>
      u' ← body u;
      rest' ← for_each body rest;
      mret (u' :: rest')
  end.

(** ** The persistence layer (Django's ORM, as the source uses it) *)

Section Persistence.

(** [fault t] tells whether the database refuses the statement sent when
    [t] statements have been sent before it. *)
Variable fault : nat → bool.

(** One statement: refused with [DatabaseError], or run on the tables. *)
Definition execute {A : Type} (q : DB → DB * A) : M A := λ w,
  if fault (clock w) then (mkWorld (db w) (S (clock w)), Raise DatabaseError)
  else let '(d, a) := q (db w) in (mkWorld d (S (clock w)), Ok a).

(** [user.save()]: the row with the object's primary key takes the
    object's columns (updated, or inserted when there is none); an object
    without primary key is inserted under the next free one, which the
    object then carries. *)
Definition save (user : AuthUser) : M AuthUser :=
  execute (λ d,
    let k := default (next_pk d) (pk user) in
    let user := set_pk k user in
    (mkDB (<[k := user]> (users d)) (auth_group d) (auth_user_groups d), user)).

(** [Group.objects.get(name=name)]; [None] stands for [DoesNotExist],
    which [get_or_create] catches. *)
Definition objects_get (nm : string) : M (option Group) :=
  rows ← execute (λ d, (d, filter (λ g, name g = nm) (auth_group d)));
  match rows with
  | [] => mret None
  | [g] => mret (Some g)
  | _ => raise MultipleObjectsReturned
  end.

(** [Group.objects.create(name=name)], with the next free id. *)
Definition objects_create (nm : string) : M Group :=
  execute (λ d,
    let g := mkGroup (S (max_list (gid <$> auth_group d))) nm in
    (mkDB (users d) (auth_group d ++ [g]) (auth_user_groups d), g)).

(** [Group.objects.get_or_create(name=name)]. *)
Definition get_or_create (nm : string) : M (Group * bool) :=
  found ← objects_get nm;
  match found with
  | Some g => mret (g, false)
  | None => g ← objects_create nm; mret (g, true)
  end.

(** [user.groups]: the related manager, which an object without primary
    key does not have. *)
Definition groups_manager (user : AuthUser) : M nat :=
  match pk user with
  | Some k => mret k
  | None => raise ValueError
  end.

(** [user.groups.add(group)]: a row is inserted only when the pair is
    not there yet. *)
Definition groups_add (user : AuthUser) (group : Group) : M unit :=
  k ← groups_manager user;
  execute (λ d,
    if decide ((k, gid group) ∈ auth_user_groups d) then (d, ())
    else (mkDB (users d) (auth_group d)
               (auth_user_groups d ++ [(k, gid group)]), ())).

(** [user.groups.clear()]: every row of the user is deleted. *)
Definition groups_clear (user : AuthUser) : M unit :=
  k ← groups_manager user;
  execute (λ d,
    (mkDB (users d) (auth_group d)
          (filter (λ m, m.1 ≠ k) (auth_user_groups d)), ())).

End Persistence.

(** [user.groups.all()]: the groups joined to the user. *)
Definition groups_all (d : DB) (user_pk : nat) : list Group :=
  filter (λ g, (user_pk, gid g) ∈ auth_user_groups d) (auth_group d).

(** [user.groups.filter(name=...).exists()]. *)
Definition groups_filter_exists (d : DB) (user_pk : nat) (nm : string) : bool :=
  bool_decide (filter (λ g, name g = nm) (groups_all d user_pk) ≠ []).

(** An object of a queryset evaluated on [d]: it has a primary key, and
    its columns are those of its row. *)
Definition loaded (d : DB) (u : AuthUser) : Prop :=
  ∃ k, pk u = Some k ∧ users d !! k = Some u.

(** [obj.save()], named apart from the forms' own [save]. *)
Definition Model_save := save.

(** ** CustomUserCreationForm *)

Module CustomUserCreationForm.

(** The state of a bound form once its fields have been cleaned one by
    one: the cleaned values, the errors collected per field, and the
    model instance the form builds (not saved yet). *)
Record Form : Type := mkForm {
  cleaned_data : gmap string PyVal;
  errors : list (string * Exn);
  instance : AuthUser
}.

Definition clean_password2 (self : Form) : Result PyVal :=
  let password1 := dict_get (cleaned_data self) "password1" in
  let password2 := dict_get (cleaned_data self) "password2" in
  if truthy password1 && truthy password2 && bool_decide (password1 ≠ password2)
  then Raise (ValidationError "Passwords do not match.")
  else Ok password2.

(** Django's [BaseForm._clean_fields], at the field [password2]: the
    value [clean_password2] returns replaces the cleaned one; the error it
    raises is recorded and the field leaves [cleaned_data]. *)
Definition clean_field_password2 (self : Form) : Form :=
  match clean_password2 self with
  | Ok v => mkForm (<["password2" := v]> (cleaned_data self)) (errors self) (instance self)
  | Raise e =>
      mkForm (delete "password2" (cleaned_data self))
             (errors self ++ [("password2", e)]) (instance self)
  end.

(** [form.is_valid()] *)
Definition is_valid (self : Form) : bool := bool_decide (errors self = []).

Section Save.

Variable fault : nat → bool.
(** [django.contrib.auth.hashers.make_password] *)
Variable make_password : PyVal → string.

(** [ModelForm.save(commit=False)]: refuses a form with errors, and
    otherwise hands out the instance without saving it. *)
Definition ModelForm_save (self : Form) : M AuthUser :=
  if is_valid self then mret (instance self) else raise ValueError.

(** [self.cleaned_data[key]] *)
Definition dict_index (d : gmap string PyVal) (key : string) : M PyVal :=
  match d !! key with
  | Some v => mret v
  | None => raise (KeyError key)
  end.

(** [user.set_password(raw_password)] *)
Definition set_password (raw : PyVal) (user : AuthUser) : AuthUser :=
  set_password_hash (make_password raw) user.

Definition save (self : Form) (commit : bool) : M AuthUser :=
  user ← ModelForm_save self;
  raw ← dict_index (cleaned_data self) "password1";
  let user := set_password raw user in
  if commit then Model_save fault user else mret user.

(** Django's [ModelAdmin] add view on a submitted form: the instance is
    saved only when the form is valid; otherwise the form comes back
    with its errors. *)
Definition add_view (submitted : Form) : M (Form * option AuthUser) :=
  let form := clean_field_password2 submitted in
  if is_valid form then
    new_object ← save form false;
    new_object ← Model_save fault new_object;
    mret (form, Some new_object)
  else mret (form, None).

End Save.

End CustomUserCreationForm.

(** ** CustomUserChangeForm *)

Module CustomUserChangeForm.

(** The change form: the initial values, taken from the instance being
    edited, and the submitted data. *)
Record Form : Type := mkForm {
  initial : gmap string PyVal;
  data : gmap string PyVal
}.

(** [self.initial["password"]]; the submitted data is not read. *)
Definition clean_password (self : Form) : Result PyVal :=
  match initial self !! "password" with
  | Some v => Ok v
  | None => Raise (KeyError "password")
  end.

(** Django's [model_to_dict] on the columns the form's [Meta.fields]
    names and this model carries. *)
Definition model_to_dict (u : AuthUser) : gmap string PyVal :=
  <["email" := PyStr (email u)]>
    (<["password" := PyStr (password u)]> ∅).

(** The form the change view binds to an account and a submission. *)
Definition bound_to (u : AuthUser) (submitted : gmap string PyVal) : Form :=
  mkForm (model_to_dict u) submitted.

End CustomUserChangeForm.

(** ** AuthUserAdmin *)

Module AuthUserAdmin.

(** *** Display columns *)

(** The columns read the tables as they are; [user.groups] needs the
    object to have a primary key. *)
Definition is_core (d : DB) (user : AuthUser) : Result bool :=
  match pk user with
  | Some k => Ok (groups_filter_exists d k "core")
  | None => Raise ValueError
  end.

Definition is_admin (user : AuthUser) : bool := is_superuser user.

Definition get_groups (d : DB) (user : AuthUser) : Result string :=
  match pk user with
  | Some k => Ok (String.concat " + " (name <$> groups_all d k))
  | None => Raise ValueError
  end.

(** *** Actions

    Each action receives the admin object and the request, which it does
    not read, and the queryset of the selected accounts. *)

Section Actions.

Variable fault : nat → bool.

Definition clear_groups (queryset : list AuthUser) : M (list AuthUser) :=
  for_each (λ u,
    groups_clear fault u;;
    let u := set_is_superuser false u in
    let u := set_is_staff false u in
    Model_save fault u) queryset.

Definition add_to_staff (user : AuthUser) : M AuthUser :=
  let user := set_is_staff true user in
  Model_save fault user.

Definition add_to_group (user : AuthUser) (nm : string) : M unit :=
  '(group, _) ← get_or_create fault nm;
  groups_add fault user group.

Definition add_to_admin (queryset : list AuthUser) : M (list AuthUser) :=
  for_each (λ u,
    add_to_group u "admin";;
    let u := set_is_superuser true u in
    add_to_staff u) queryset.

Definition add_to_core (queryset : list AuthUser) : M (list AuthUser) :=
  for_each (λ u,
    add_to_group u "core";;
    add_to_staff u) queryset.

Definition add_to_pickleader (queryset : list AuthUser) : M (list AuthUser) :=
  for_each (λ u,
    add_to_group u "pickleader";;
    add_to_staff u) queryset.

Definition add_to_volunteer (queryset : list AuthUser) : M (list AuthUser) :=
  for_each (λ u,
    add_to_group u "volunteer";;
    mret u) queryset.

Definition add_to_owner (queryset : list AuthUser) : M (list AuthUser) :=
  for_each (λ u,
    add_to_group u "owner";;
    mret u) queryset.

Definition deactivate_account (queryset : list AuthUser) : M (list AuthUser) :=
  for_each (λ u,
    if negb (is_superuser u) then
      let u := set_is_active false u in
      Model_save fault u
    else mret u) queryset.

Definition actions : list (list AuthUser → M (list AuthUser)) :=
  [ clear_groups;
    add_to_admin;
    add_to_core;
    add_to_pickleader;
    add_to_volunteer;
    add_to_owner;
    deactivate_account ].

End Actions.

End AuthUserAdmin.

(** * Predicates on runs and tables *)

Import AuthUserAdmin.

(** The runs of a loop that reaches its end: one successful run of the
    body per object, each from the world the previous one left. *)
Inductive iterates (body : AuthUser → M AuthUser)
    : World → list AuthUser → World → list AuthUser → Prop :=
  | iterates_nil w : iterates body w [] w []
  | iterates_cons w w1 w' u u' rest rest' :
      body u w = (w1, Ok u') →
      iterates body w1 rest w' rest' →
      iterates body w (u :: rest) w' (u' :: rest').

(** The account with key [k] belongs to a group named [nm]. *)
Definition belongs (d : DB) (k : nat) (nm : string) : Prop :=
  ∃ g, g ∈ auth_group d ∧ name g = nm ∧ (k, gid g) ∈ auth_user_groups d.

(** The account with key [k] has no row in the relation. *)
Definition no_membership (d : DB) (k : nat) : Prop :=
  ∀ m, m ∈ auth_user_groups d → m.1 ≠ k.

(** The tables of groups and of memberships only gained rows. *)
Definition grows (d d' : DB) : Prop :=
  auth_group d ⊆ auth_group d' ∧ auth_user_groups d ⊆ auth_user_groups d'.

(** The account behind the object [u] is an administrator in [d]: its row
    carries both flags and it is joined to a group named "admin". *)
Definition promoted (d : DB) (u : AuthUser) : Prop :=
  ∃ k r, pk u = Some k ∧ users d !! k = Some r ∧
    is_superuser r = true ∧ is_staff r = true ∧ belongs d k "admin".

(** The account behind the object [u] has no role left in [d]. *)
Definition cleared (d : DB) (u : AuthUser) : Prop :=
  ∃ k r, pk u = Some k ∧ users d !! k = Some r ∧
    is_superuser r = false ∧ is_staff r = false ∧ no_membership d k.

(** [d] is [d0] up to deactivations: the groups and the memberships are
    those of [d0], and a row of an account is the one of [d0], or the one
    of [d0] with [is_active] false when the account is no superuser. *)
Definition deactivation_of (d0 d : DB) : Prop :=
  auth_group d = auth_group d0 ∧
  auth_user_groups d = auth_user_groups d0 ∧
  ∀ k, users d !! k = users d0 !! k ∨
       ∃ r, users d0 !! k = Some r ∧ is_superuser r = false ∧
            users d !! k = Some (set_is_active false r).

(** The world one statement later, the tables untouched. *)
Definition tick (w : World) : World := mkWorld (db w) (S (clock w)).

(** No statement is refused from the clock of [w] on. *)
Definition quiet (fault : nat → bool) (w : World) : Prop :=
  ∀ t, clock w ≤ t → fault t = false.

(** The account behind the object [u] is settled in the core group: the
    object is its row, a member of staff, and joined to the one group
    named "core". *)
Definition in_core (d : DB) (u : AuthUser) : Prop :=
  ∃ k g, pk u = Some k ∧ users d !! k = Some u ∧ is_staff u = true ∧
    filter (λ g, name g = "core") (auth_group d) = [g] ∧
    (k, gid g) ∈ auth_user_groups d.

(** The uniqueness constraint on the names of groups. *)
Definition unique_names (d : DB) : Prop :=
  ∀ nm, length (filter (λ g, name g = nm) (auth_group d)) ≤ 1.

(** The bodies of the loops of [deactivate_account] and [add_to_core],
    under a name. *)
Definition deactivate_body (fault : nat → bool) (u : AuthUser) : M AuthUser :=
  if negb (is_superuser u) then
    let u := set_is_active false u in
    Model_save fault u
  else mret u.

Definition core_body (fault : nat → bool) (u : AuthUser) : M AuthUser :=
  add_to_group fault u "core";; add_to_staff fault u.

(** The uniqueness constraints of the schema: the names and the ids of
    the groups, and the pairs of the relation. *)
Definition db_wf (d : DB) : Prop :=
  unique_names d ∧ NoDup (gid <$> auth_group d) ∧ NoDup (auth_user_groups d).

(** The bodies of the other loops, under a name: the one of
    [clear_groups], the one of [add_to_admin], the one [add_to_core] and
    [add_to_pickleader] share, and the one [add_to_volunteer] and
    [add_to_owner] share. *)
Definition clear_body (fault : nat → bool) (u : AuthUser) : M AuthUser :=
  groups_clear fault u;;
  let u := set_is_superuser false u in
  let u := set_is_staff false u in
  Model_save fault u.

Definition admin_body (fault : nat → bool) (u : AuthUser) : M AuthUser :=
  add_to_group fault u "admin";;
  let u := set_is_superuser true u in
  add_to_staff fault u.

Definition staff_group_body (fault : nat → bool) (nm : string) (u : AuthUser)
    : M AuthUser :=
  add_to_group fault u nm;; add_to_staff fault u.

Definition group_only_body (fault : nat → bool) (nm : string) (u : AuthUser)
    : M AuthUser :=
  add_to_group fault u nm;; mret u.

(** What a promotion may do to the tables: add one group, of a name and
    an id that no group has; add one pair that the relation has not; write
    rows of accounts, none of which goes away. *)
Definition extends (d d' : DB) : Prop :=
  (auth_group d' = auth_group d ∨
   ∃ g, filter (λ h, name h = name g) (auth_group d) = [] ∧
        (gid g ∉ gid <$> auth_group d) ∧
        auth_group d' = auth_group d ++ [g]) ∧
  (auth_user_groups d' = auth_user_groups d ∨
   ∃ m, (m ∉ auth_user_groups d) ∧
        auth_user_groups d' = auth_user_groups d ++ [m]) ∧
  (∀ k, is_Some (users d !! k) → is_Some (users d' !! k)).

(** [d] holds every group, every membership and every account of [d0]. *)
Definition kept (d0 d : DB) : Prop :=
  grows d0 d ∧ ∀ k, is_Some (users d0 !! k) → is_Some (users d !! k).


(** The accounts of a queryset, by primary key. *)
Definition selected (qs : list AuthUser) (k : nat) : Prop :=
  ∃ u, u ∈ qs ∧ pk u = Some k.

(** The foreign key of the relation on the table of groups. *)
Definition db_fk (d : DB) : Prop :=
  ∀ m, m ∈ auth_user_groups d → m.2 ∈ gid <$> auth_group d.

(** [d] has the ids of its groups unique and its foreign key in place,
    and what an account belongs to in [d] it belonged to in [d0], unless
    the group is named [nm] and the account is selected. *)
Definition gains_only (nm : string) (qs : list AuthUser) (d0 d : DB) : Prop :=
  NoDup (gid <$> auth_group d) ∧ db_fk d ∧
  ∀ j nm', belongs d j nm' → belongs d0 j nm' ∨ (nm' = nm ∧ selected qs j).

(** The account behind the object [u] is joined to the one group named
    [nm]. *)
Definition joined (nm : string) (d : DB) (u : AuthUser) : Prop :=
  ∃ k g, pk u = Some k ∧
    filter (λ g, name g = nm) (auth_group d) = [g] ∧
    (k, gid g) ∈ auth_user_groups d.

(** A run that changes no table: it gives [a] or is refused, and it gives
    [a] when no statement is refused. *)
Definition harmless {A : Type} (fault : nat → bool) (m : M A) (a : A)
    (w : World) : Prop :=
  db (m w).1 = db w ∧ clock w ≤ clock (m w).1 ∧
  ((m w).2 = Ok a ∨ (m w).2 = Raise DatabaseError) ∧
  (quiet fault w → (m w).2 = Ok a).

(** What each action leaves of an object it has processed: nothing is
    left for the action to do on it. *)
Definition settled_clear (d : DB) (u : AuthUser) : Prop :=
  loaded d u ∧ is_superuser u = false ∧ is_staff u = false ∧
  ∀ k, pk u = Some k → no_membership d k.

Definition settled_admin (d : DB) (u : AuthUser) : Prop :=
  joined "admin" d u ∧ loaded d u ∧ is_staff u = true ∧ is_superuser u = true.

Definition settled_staff (nm : string) (d : DB) (u : AuthUser) : Prop :=
  joined nm d u ∧ loaded d u ∧ is_staff u = true.

Definition settled_deactivate (d : DB) (u : AuthUser) : Prop :=
  is_superuser u = true ∨ (loaded d u ∧ is_active u = false).

(** ** Concrete accounts and submissions *)

Module Fixture.

Definition alice : AuthUser :=
  mkAuthUser (Some 1) "alice@example.org" "pbkdf2$alice" true false false.
Definition bob : AuthUser :=
  mkAuthUser (Some 2) "bob@example.org" "pbkdf2$bob" true true false.
Definition root : AuthUser :=
  mkAuthUser (Some 3) "root@example.org" "pbkdf2$root" true true true.
Definition carol : AuthUser :=
  mkAuthUser (Some 4) "carol@example.org" "pbkdf2$carol" true false false.

(** Four accounts, the group "core", and bob in it. *)
Definition tables : DB :=
  mkDB (<[1 := alice]> (<[2 := bob]> (<[3 := root]> (<[4 := carol]> ∅))))
       [mkGroup 1 "core"] [(2, 1)].

Definition start : World := mkWorld tables 0.

(** Fault schedules: none; the first statement; the second one. *)
Definition never : nat → bool := λ _, false.
Definition first_refused : nat → bool := λ t, bool_decide (t = 0).
Definition second_refused : nat → bool := λ t, bool_decide (t = 1).

(** A stand-in for the hasher. *)
Definition hasher (raw : PyVal) : string :=
  match raw with
  | PyNone => "!"
  | PyStr s => String.append "plain$" s
  end.

(** A new account as the creation form holds it before saving. *)
Definition dave : AuthUser :=
  mkAuthUser None "dave@example.org" EmptyString true false false.

(** A password given once, the confirmation left empty. *)
Definition unconfirmed : CustomUserCreationForm.Form :=
  CustomUserCreationForm.mkForm
    (<["email" := PyStr "dave@example.org"]>
       (<["password1" := PyStr "secret"]> (<["password2" := PyStr EmptyString]> ∅)))
    [] dave.

(** A password and a confirmation that differs. *)
Definition mistyped : CustomUserCreationForm.Form :=
  CustomUserCreationForm.mkForm
    (<["email" := PyStr "dave@example.org"]>
       (<["password1" := PyStr "secret"]> (<["password2" := PyStr "secrte"]> ∅)))
    [] dave.

(** A password confirmed as given. *)
Definition confirmed : CustomUserCreationForm.Form :=
  CustomUserCreationForm.mkForm
    (<["email" := PyStr "dave@example.org"]>
       (<["password1" := PyStr "secret"]> (<["password2" := PyStr "secret"]> ∅)))
    [] dave.



End Fixture.

(** * Reasoning about runs *)

(** ** Sequencing *)

Lemma bind_run {A B : Type} (m : M A) (f : A → M B) (w : World) :
  (m ≫= f) w =
    match m w with
    | (w1, Ok a) => f a w1
    | (w1, Raise e) => (w1, Raise e)
    end.
Proof. reflexivity. Qed.

Lemma bind_Ok_inv {A B : Type} (m : M A) (f : A → M B) w w' b :
  (m ≫= f) w = (w', Ok b) →
  ∃ w1 a, m w = (w1, Ok a) ∧ f a w1 = (w', Ok b).
Proof.
  rewrite bind_run. destruct (m w) as [w1 [a|e]]; [eauto | discriminate].
Qed.

Lemma bind_Ok_intro {A B : Type} (m : M A) (f : A → M B) w w1 a :
  m w = (w1, Ok a) → (m ≫= f) w = f a w1.
Proof. intros H. by rewrite bind_run, H. Qed.

Lemma bind_Raise_intro {A B : Type} (m : M A) (f : A → M B) w w1 e :
  m w = (w1, Raise e) → (m ≫= f) w = (w1, Raise e).
Proof. intros H. by rewrite bind_run, H. Qed.

Lemma ret_run {A : Type} (a : A) (w : World) : (mret a : M A) w = (w, Ok a).
Proof. reflexivity. Qed.

(** ** The loop *)

Lemma for_each_iterates body qs w w' qs' :
  for_each body qs w = (w', Ok qs') ↔ iterates body w qs w' qs'.
Proof.
  split.
  - revert w qs'. induction qs as [|u rest IH]; intros w qs' H.
    + cbn in H. injection H as <- <-. constructor.
    + cbn [for_each] in H.
      apply bind_Ok_inv in H as (w1 & u' & Hu & H).
      apply bind_Ok_inv in H as (w2 & rest' & Hrest & H).
      cbn in H. injection H as <- <-.
      econstructor; eauto.
  - induction 1 as [w|w w1 w' u u' rest rest' Hu _ IH]; [done|].
    cbn [for_each]. rewrite (bind_Ok_intro _ _ _ _ _ Hu).
    by rewrite (bind_Ok_intro _ _ _ _ _ IH).
Qed.

(** The loop stops at the first object whose body raises: the objects
    before it have been processed, the world is the one the failing body
    left, and no later object is touched. *)
Lemma for_each_aborts body before u after w w1 w2 before' e :
  for_each body before w = (w1, Ok before') →
  body u w1 = (w2, Raise e) →
  for_each body (before ++ u :: after) w = (w2, Raise e).
Proof.
  rewrite for_each_iterates. intros Hrun. revert after.
  induction Hrun as [w|w wa w' v v' rest rest' Hv _ IH]; intros after Hu.
  - cbn [app for_each]. by rewrite (bind_Raise_intro _ _ _ _ _ Hu).
  - cbn [app for_each]. rewrite (bind_Ok_intro _ _ _ _ _ Hv).
    by rewrite (bind_Raise_intro _ _ _ _ _ (IH after Hu)).
Qed.

(** A property of the world that every run of the body keeps, whatever
    its outcome, is kept by the loop, whatever its outcome. *)
Lemma for_each_preserves body (Pre : AuthUser → Prop) (Inv : World → Prop) :
  (∀ u w, Pre u → Inv w → Inv (body u w).1) →
  ∀ qs w, Forall Pre qs → Inv w → Inv (for_each body qs w).1.
Proof.
  intros Hbody qs. induction qs as [|u rest IH]; intros w Hpre Hw; [done|].
  apply Forall_cons in Hpre as [Hu Hrest].
  cbn [for_each]. rewrite bind_run.
  specialize (Hbody u w Hu Hw).
  destruct (body u w) as [w1 [u'|e]]; [|done].
  rewrite bind_run. specialize (IH w1 Hrest Hbody).
  by destruct (for_each body rest w1) as [w2 [rest'|e]].
Qed.

(** Postconditions of a loop that reaches its end: every run of the body
    keeps the invariant, establishes the postcondition of its object and
    keeps the postconditions already established. *)
Lemma for_each_establishes body (Pre : AuthUser → Prop) (Inv : World → Prop)
    (Post : World → AuthUser → Prop) :
  (∀ u w w1 u', Pre u → Inv w → body u w = (w1, Ok u') →
     Inv w1 ∧ Post w1 u ∧ ∀ v, Pre v → Post w v → Post w1 v) →
  ∀ qs w w' qs', Forall Pre qs → Inv w → for_each body qs w = (w', Ok qs') →
    Inv w' ∧ Forall (Post w') qs ∧ ∀ v, Pre v → Post w v → Post w' v.
Proof.
  intros Hbody qs w w' qs' Hpre Hw. rewrite for_each_iterates. intros Hrun.
  induction Hrun as [w|w w1 w' u u' rest rest' Hu _ IH]; [by auto|].
  apply Forall_cons in Hpre as [Hpu Hrest].
  destruct (Hbody u w w1 u' Hpu Hw Hu) as (Hw1 & Hpost & Hstable).
  destruct (IH Hrest Hw1) as (Hw' & Hposts & Hstable').
  split_and!; [done| |by auto].
  apply Forall_cons. split; [by apply Hstable'|done].
Qed.

(** The same for a relation between each object and what the loop hands
    back for it. *)
Lemma for_each_relates body (Pre : AuthUser → Prop) (Inv : World → Prop)
    (R : AuthUser → AuthUser → Prop) :
  (∀ u w w1 u', Pre u → Inv w → body u w = (w1, Ok u') → Inv w1 ∧ R u u') →
  ∀ qs w w' qs', Forall Pre qs → Inv w → for_each body qs w = (w', Ok qs') →
    Forall2 R qs qs'.
Proof.
  intros Hbody qs w w' qs' Hpre Hw. rewrite for_each_iterates. intros Hrun.
  induction Hrun as [w|w w1 w' u u' rest rest' Hu _ IH]; [constructor|].
  apply Forall_cons in Hpre as [Hpu Hrest].
  destruct (Hbody u w w1 u' Hpu Hw Hu) as [Hw1 HR].
  constructor; auto.
Qed.

(** The objects a loop hands back are those the body made of them. *)
Lemma for_each_objects body (R : AuthUser → AuthUser → Prop) :
  (∀ u w w1 u', body u w = (w1, Ok u') → R u u') →
  ∀ qs w w' qs', for_each body qs w = (w', Ok qs') → Forall2 R qs qs'.
Proof.
  intros Hbody qs w w' qs'. rewrite for_each_iterates.
  induction 1; constructor; eauto.
Qed.

(** ** The statements *)

Lemma set_pk_id u k : pk u = Some k → set_pk k u = u.
Proof. destruct u as [p ? ? ? ? ?]. cbn. by intros ->. Qed.

Section Statements.

Variable fault : nat → bool.

Lemma execute_Ok_inv {A : Type} (q : DB → DB * A) w w' a :
  execute fault q w = (w', Ok a) →
  fault (clock w) = false ∧ w' = mkWorld (q (db w)).1 (S (clock w)) ∧ a = (q (db w)).2.
Proof.
  unfold execute. destruct (fault (clock w)); [discriminate|].
  destruct (q (db w)) as [d b]. by intros [= <- <-].
Qed.

Lemma execute_Ok_intro {A : Type} (q : DB → DB * A) w :
  fault (clock w) = false →
  execute fault q w = (mkWorld (q (db w)).1 (S (clock w)), Ok (q (db w)).2).
Proof. unfold execute. intros ->. by destruct (q (db w)). Qed.

Lemma execute_Raise_inv {A : Type} (q : DB → DB * A) w w' e :
  execute fault q w = (w', Raise e) →
  fault (clock w) = true ∧ w' = mkWorld (db w) (S (clock w)) ∧ e = DatabaseError.
Proof.
  unfold execute. destruct (fault (clock w)).
  - by intros [= <- <-].
  - by destruct (q (db w)).
Qed.

(** Whatever the outcome, a statement leaves the tables as they were or
    as the statement makes them, and advances the clock by one. *)
Lemma execute_world {A : Type} (q : DB → DB * A) w :
  clock (execute fault q w).1 = S (clock w) ∧
  (db (execute fault q w).1 = db w ∨ db (execute fault q w).1 = (q (db w)).1).
Proof.
  unfold execute. destruct (fault (clock w)); cbn; [by auto|].
  destruct (q (db w)); cbn; auto.
Qed.

Lemma save_Ok_inv u w w' u' :
  Model_save fault u w = (w', Ok u') →
  let k := default (next_pk (db w)) (pk u) in
  u' = set_pk k u ∧
  clock w' = S (clock w) ∧
  db w' = mkDB (<[k := set_pk k u]> (users (db w)))
               (auth_group (db w)) (auth_user_groups (db w)).
Proof.
  intros H. apply execute_Ok_inv in H as (_ & -> & ->). by cbn.
Qed.

Lemma save_keyed_Ok_inv u k w w' u' :
  pk u = Some k →
  Model_save fault u w = (w', Ok u') →
  u' = u ∧
  clock w' = S (clock w) ∧
  db w' = mkDB (<[k := u]> (users (db w)))
               (auth_group (db w)) (auth_user_groups (db w)).
Proof.
  intros Hk H. apply save_Ok_inv in H. cbv zeta in H.
  rewrite Hk in H. cbn [default] in H.
  by rewrite set_pk_id in H.
Qed.

Lemma groups_manager_Ok_inv u w w' k :
  groups_manager u w = (w', Ok k) → pk u = Some k ∧ w' = w.
Proof.
  unfold groups_manager. destruct (pk u); [|discriminate].
  by intros [= <- <-].
Qed.

Lemma objects_get_Ok_inv nm w w' found :
  objects_get fault nm w = (w', Ok found) →
  db w' = db w ∧ clock w' = S (clock w) ∧
  match found with
  | Some g => filter (λ g, name g = nm) (auth_group (db w)) = [g]
  | None => filter (λ g, name g = nm) (auth_group (db w)) = []
  end.
Proof.
  unfold objects_get. intros H.
  apply bind_Ok_inv in H as (w1 & rows & Hq & H).
  apply execute_Ok_inv in Hq as (_ & -> & ->). cbn in H.
  destruct (filter _ _) as [|g [|g' rows]]; [| |discriminate].
  - by injection H as <- <-.
  - by injection H as <- <-.
Qed.

Lemma get_or_create_Ok_inv nm w w' g created :
  get_or_create fault nm w = (w', Ok (g, created)) →
  users (db w') = users (db w) ∧
  auth_user_groups (db w') = auth_user_groups (db w) ∧
  filter (λ g, name g = nm) (auth_group (db w')) = [g] ∧
  if created
  then filter (λ g, name g = nm) (auth_group (db w)) = [] ∧
       auth_group (db w') = auth_group (db w) ++ [g] ∧
       gid g = S (max_list (gid <$> auth_group (db w)))
  else auth_group (db w') = auth_group (db w).
Proof.
  unfold get_or_create. intros H.
  apply bind_Ok_inv in H as (w1 & found & Hget & H).
  apply objects_get_Ok_inv in Hget as (Hdb & _ & Hrows).
  destruct found as [g0|].
  - injection H as <- <- <-. by rewrite Hdb.
  - apply bind_Ok_inv in H as (w2 & g1 & Hc & H).
    injection H as <- <- <-.
    apply execute_Ok_inv in Hc as (_ & -> & ->). cbn. rewrite Hdb.
    split_and!; try done.
    rewrite filter_app, Hrows. cbn.
    unfold filter, list_filter. by rewrite decide_True.
Qed.

Lemma groups_add_Ok_inv u g w w' :
  groups_add fault u g w = (w', Ok ()) →
  ∃ k, pk u = Some k ∧
    users (db w') = users (db w) ∧
    auth_group (db w') = auth_group (db w) ∧
    (k, gid g) ∈ auth_user_groups (db w') ∧
    ((k, gid g) ∈ auth_user_groups (db w) ∧
       auth_user_groups (db w') = auth_user_groups (db w)
     ∨ ((k, gid g) ∉ auth_user_groups (db w)) ∧
       auth_user_groups (db w') = auth_user_groups (db w) ++ [(k, gid g)]).
Proof.
  unfold groups_add. intros H.
  apply bind_Ok_inv in H as (w1 & k & Hk & H).
  apply groups_manager_Ok_inv in Hk as [Hk ->].
  apply execute_Ok_inv in H as (_ & -> & _).
  exists k. split; [done|]. cbn.
  destruct (decide _) as [Hin|Hnin]; cbn.
  - split_and!; auto.
  - split_and!; auto. apply elem_of_app. right. by apply list_elem_of_singleton.
Qed.

Lemma groups_clear_Ok_inv u w w' :
  groups_clear fault u w = (w', Ok ()) →
  ∃ k, pk u = Some k ∧
    users (db w') = users (db w) ∧
    auth_group (db w') = auth_group (db w) ∧
    auth_user_groups (db w') = filter (λ m, m.1 ≠ k) (auth_user_groups (db w)).
Proof.
  unfold groups_clear. intros H.
  apply bind_Ok_inv in H as (w1 & k & Hk & H).
  apply groups_manager_Ok_inv in Hk as [Hk ->].
  apply execute_Ok_inv in H as (_ & -> & _).
  by exists k.
Qed.

End Statements.

(** ** Membership *)

Lemma groups_filter_exists_belongs d k nm :
  groups_filter_exists d k nm = true ↔ belongs d k nm.
Proof.
  unfold groups_filter_exists, groups_all, belongs.
  rewrite bool_decide_eq_true. split.
  - intros Hne.
    destruct (filter _ (filter _ _)) as [|g l] eqn:E; [done|].
    assert (Hg : g ∈ g :: l) by apply list_elem_of_here. rewrite <- E in Hg.
    apply list_elem_of_filter in Hg as [Hnm Hg].
    apply list_elem_of_filter in Hg as [Hm Hg]. eauto.
  - intros (g & Hg & Hnm & Hm) E.
    assert (Hin : g ∈ filter (λ g, name g = nm)
                     (filter (λ g, (k, gid g) ∈ auth_user_groups d) (auth_group d))).
    { apply list_elem_of_filter. split; [done|]. by apply list_elem_of_filter. }
    rewrite E in Hin. by apply not_elem_of_nil in Hin.
Qed.

Lemma no_membership_groups_all d k : no_membership d k → groups_all d k = [].
Proof.
  intros H. unfold groups_all.
  destruct (filter _ _) as [|g l] eqn:E; [done|].
  assert (Hg : g ∈ g :: l) by apply list_elem_of_here. rewrite <- E in Hg.
  apply list_elem_of_filter in Hg as [Hm _]. by apply H in Hm.
Qed.

Lemma grows_refl d : grows d d.
Proof. by split. Qed.

Lemma grows_trans d1 d2 d3 : grows d1 d2 → grows d2 d3 → grows d1 d3.
Proof. intros [? ?] [? ?]. split; by etrans. Qed.

Lemma belongs_grows d d' k nm : grows d d' → belongs d k nm → belongs d' k nm.
Proof. intros [Hg Hm] (g & ? & ? & ?). exists g. split_and!; auto. Qed.

(** * The bulk actions *)

Section ActionBodies.

Variable fault : nat → bool.

(** [add_to_group] leaves the accounts alone, finds or makes the one
    group of that name and joins the account to it. *)
Lemma add_to_group_Ok_inv u nm w w' :
  add_to_group fault u nm w = (w', Ok ()) →
  ∃ k g, pk u = Some k ∧
    users (db w') = users (db w) ∧
    filter (λ g, name g = nm) (auth_group (db w')) = [g] ∧
    (k, gid g) ∈ auth_user_groups (db w') ∧
    (auth_group (db w') = auth_group (db w) ∨
     filter (λ g, name g = nm) (auth_group (db w)) = [] ∧
     auth_group (db w') = auth_group (db w) ++ [g]) ∧
    ((k, gid g) ∈ auth_user_groups (db w) ∧
       auth_user_groups (db w') = auth_user_groups (db w)
     ∨ ((k, gid g) ∉ auth_user_groups (db w)) ∧
       auth_user_groups (db w') = auth_user_groups (db w) ++ [(k, gid g)]).
Proof.
  unfold add_to_group. intros H.
  apply bind_Ok_inv in H as (w1 & [g created] & Hg & H).
  apply get_or_create_Ok_inv in Hg as (Hu & Hm & Hf & Hc).
  apply groups_add_Ok_inv in H as (k & Hk & Hu' & Hg' & Hin & Hm').
  exists k, g. rewrite Hu', Hg', Hu. rewrite Hm in Hm'.
  split_and!; try done.
  destruct created; [right|left]; [|done].
  by destruct Hc as (? & ? & _).
Qed.

Lemma add_to_group_grows u nm w w' :
  add_to_group fault u nm w = (w', Ok ()) → grows (db w) (db w').
Proof.
  intros (k & g & _ & _ & _ & _ & Hg & Hm)%add_to_group_Ok_inv. split.
  - destruct Hg as [->|[_ ->]]; [done|]. intros x Hx. apply elem_of_app. auto.
  - destruct Hm as [[_ ->]|[_ ->]]; [done|]. intros x Hx. apply elem_of_app. auto.
Qed.

Lemma add_to_group_belongs u nm w w' :
  add_to_group fault u nm w = (w', Ok ()) →
  ∃ k, pk u = Some k ∧ belongs (db w') k nm.
Proof.
  intros (k & g & Hk & _ & Hf & Hin & _)%add_to_group_Ok_inv.
  exists k. split; [done|]. exists g.
  assert (Hg : g ∈ filter (λ g, name g = nm) (auth_group (db w'))).
  { rewrite Hf. apply list_elem_of_here. }
  apply list_elem_of_filter in Hg as [? ?]. done.
Qed.

(** [add_to_staff] on an object that has a primary key. *)
Lemma add_to_staff_Ok_inv u k w w' u' :
  pk u = Some k →
  add_to_staff fault u w = (w', Ok u') →
  u' = set_is_staff true u ∧
  clock w' = S (clock w) ∧
  db w' = mkDB (<[k := set_is_staff true u]> (users (db w)))
               (auth_group (db w)) (auth_user_groups (db w)).
Proof.
  intros Hk H. unfold add_to_staff in H.
  apply save_Ok_inv in H. cbv zeta in H.
  change (pk (set_is_staff true u)) with (pk u) in H.
  rewrite Hk in H. cbn [default] in H.
  by rewrite set_pk_id in H.
Qed.

End ActionBodies.

(** ** Runs without failure *)

Lemma for_each_completes fault body (Pre : AuthUser → Prop) (Inv : World → Prop) :
  (∀ u w, Pre u → Inv w → quiet fault w →
     ∃ w1 u', body u w = (w1, Ok u') ∧ Inv w1 ∧ clock w ≤ clock w1) →
  ∀ qs w, Forall Pre qs → Inv w → quiet fault w →
    ∃ w' qs', for_each body qs w = (w', Ok qs') ∧ Inv w' ∧ clock w ≤ clock w'.
Proof.
  intros Hbody qs. induction qs as [|u rest IH]; intros w Hpre Hw Hq.
  { by exists w, []. }
  apply Forall_cons in Hpre as [Hu Hrest].
  destruct (Hbody u w Hu Hw Hq) as (w1 & u' & Hrun & Hw1 & Hle).
  assert (Hq1 : quiet fault w1) by (intros t Ht; apply Hq; lia).
  destruct (IH w1 Hrest Hw1 Hq1) as (w' & rest' & Hrest' & Hw' & Hle').
  exists w', (u' :: rest'). cbn [for_each].
  rewrite (bind_Ok_intro _ _ _ _ _ Hrun).
  rewrite (bind_Ok_intro _ _ _ _ _ Hrest').
  split_and!; [done|done|lia].
Qed.

Section Quiet.

Variable fault : nat → bool.

Lemma execute_quiet {A : Type} (q : DB → DB * A) w :
  quiet fault w →
  execute fault q w = (mkWorld (q (db w)).1 (S (clock w)), Ok (q (db w)).2).
Proof. intros Hq. apply execute_Ok_intro. by apply Hq. Qed.

Lemma quiet_later w w1 : clock w ≤ clock w1 → quiet fault w → quiet fault w1.
Proof. intros Hle Hq t Ht. apply Hq. lia. Qed.

Lemma save_quiet u w :
  quiet fault w →
  ∃ w1 u', Model_save fault u w = (w1, Ok u') ∧
    auth_group (db w1) = auth_group (db w) ∧ clock w ≤ clock w1.
Proof.
  intros Hq. unfold Model_save, save. rewrite execute_quiet by done.
  eexists _, _. split; [reflexivity|]. cbn. split; [done|lia].
Qed.

Lemma unique_names_create d nm g :
  filter (λ g, name g = nm) (auth_group d) = [] → name g = nm →
  unique_names d →
  unique_names (mkDB (users d) (auth_group d ++ [g]) (auth_user_groups d)).
Proof.
  intros Hnone Hg Huniq nm'. cbn [auth_group]. rewrite filter_app, length_app.
  destruct (decide (nm = nm')) as [<-|Hne].
  - rewrite Hnone. cbn [length]. apply length_filter.
  - rewrite filter_cons_False by congruence. cbn [filter length].
    specialize (Huniq nm'). rewrite filter_nil. cbn. lia.
Qed.

Lemma get_or_create_quiet nm w :
  quiet fault w → unique_names (db w) →
  ∃ w1 g created, get_or_create fault nm w = (w1, Ok (g, created)) ∧
    unique_names (db w1) ∧ clock w ≤ clock w1.
Proof.
  intros Hq Huniq. unfold get_or_create, objects_get.
  rewrite !bind_run, execute_quiet by done. cbn [fst snd].
  pose proof (Huniq nm) as Hlen.
  destruct (filter (λ g, name g = nm) (auth_group (db w)))
    as [|g [|g' rows]] eqn:Hrows; [| |cbn in Hlen; lia].
  - rewrite ret_run, bind_run. unfold objects_create.
    rewrite execute_quiet by (eapply quiet_later; [|done]; cbn; lia).
    eexists _, _, _. split; [reflexivity|]. cbn [db clock fst].
    split; [|lia]. by apply (unique_names_create _ nm).
  - rewrite ret_run. eexists _, _, _. split; [reflexivity|].
    cbn [db clock]. split; [done|lia].
Qed.

Lemma add_to_group_quiet u nm w :
  is_Some (pk u) → quiet fault w → unique_names (db w) →
  ∃ w1, add_to_group fault u nm w = (w1, Ok ()) ∧
    unique_names (db w1) ∧ clock w ≤ clock w1.
Proof.
  intros [k Hk] Hq Huniq. unfold add_to_group.
  destruct (get_or_create_quiet nm w Hq Huniq)
    as (w1 & g & created & Hrun & Huniq1 & Hle).
  rewrite (bind_Ok_intro _ _ _ _ _ Hrun).
  unfold groups_add, groups_manager. rewrite Hk, bind_run, ret_run.
  rewrite execute_quiet by (by eapply quiet_later).
  case_decide; cbn [fst snd]; (eexists; split; [reflexivity|]);
    cbn [db clock]; (split; [exact Huniq1|lia]).
Qed.

Lemma unique_names_same_groups d d' :
  auth_group d' = auth_group d → unique_names d → unique_names d'.
Proof. intros Hg Huniq nm. rewrite Hg. apply Huniq. Qed.

Lemma groups_clear_quiet u w :
  is_Some (pk u) → quiet fault w →
  ∃ w1, groups_clear fault u w = (w1, Ok ()) ∧
    auth_group (db w1) = auth_group (db w) ∧ clock w ≤ clock w1.
Proof.
  intros [k Hk] Hq. unfold groups_clear, groups_manager.
  rewrite Hk, bind_run, ret_run, execute_quiet by done.
  eexists. split; [reflexivity|]. cbn. split; [done|lia].
Qed.

Lemma add_to_group_then_staff_quiet u v nm w :
  is_Some (pk u) → quiet fault w → unique_names (db w) →
  ∃ w1 u', (add_to_group fault u nm;; add_to_staff fault v) w = (w1, Ok u') ∧
    unique_names (db w1) ∧ clock w ≤ clock w1.
Proof.
  intros Hk Hq Huniq.
  destruct (add_to_group_quiet u nm w Hk Hq Huniq) as (w1 & Hrun & Huniq1 & Hle).
  rewrite (bind_Ok_intro _ _ _ _ _ Hrun). unfold add_to_staff.
  destruct (save_quiet (set_is_staff true v) w1) as (w2 & u' & Hsave & Hg & Hle2);
    [by eapply quiet_later|].
  exists w2, u'. split_and!; [done| |lia].
  by eapply unique_names_same_groups.
Qed.

Lemma add_to_group_only_quiet u nm w :
  is_Some (pk u) → quiet fault w → unique_names (db w) →
  ∃ w1 u', (add_to_group fault u nm;; mret u) w = (w1, Ok u') ∧
    unique_names (db w1) ∧ clock w ≤ clock w1.
Proof.
  intros Hk Hq Huniq.
  destruct (add_to_group_quiet u nm w Hk Hq Huniq) as (w1 & Hrun & Huniq1 & Hle).
  rewrite (bind_Ok_intro _ _ _ _ _ Hrun). by exists w1, u.
Qed.

(** When no statement is refused, the names of the groups are unique and
    the selected objects have primary keys (as the objects of a queryset
    have), every action reaches the end of the queryset. *)
Lemma bulk_action_completes action qs w :
  action ∈ actions fault →
  quiet fault w → unique_names (db w) → Forall (λ u, is_Some (pk u)) qs →
  ∃ w' qs', action qs w = (w', Ok qs') ∧
    unique_names (db w') ∧ clock w ≤ clock w'.
Proof.
  unfold actions. rewrite !elem_of_cons, elem_of_nil.
  intros [->|[->|[->|[->|[->|[->|[->|[]]]]]]]] Hq Huniq Hqs;
    unfold clear_groups, add_to_admin, add_to_core, add_to_pickleader,
      add_to_volunteer, add_to_owner, deactivate_account;
    apply (for_each_completes fault _ (λ u, is_Some (pk u))
             (λ w, unique_names (db w))); try done;
    intros u w0 Hk Huniq0 Hq0.
  - destruct (groups_clear_quiet u w0 Hk Hq0) as (w1 & Hrun & Hg & Hle).
    rewrite (bind_Ok_intro _ _ _ _ _ Hrun). cbv zeta.
    destruct (save_quiet (set_is_staff false (set_is_superuser false u)) w1)
      as (w2 & u' & Hsave & Hg2 & Hle2); [by eapply quiet_later|].
    exists w2, u'. split_and!; [done| |lia].
    eapply unique_names_same_groups; [|exact Huniq0]. congruence.
  - by apply add_to_group_then_staff_quiet.
  - by apply add_to_group_then_staff_quiet.
  - by apply add_to_group_then_staff_quiet.
  - by apply add_to_group_only_quiet.
  - by apply add_to_group_only_quiet.
  - destruct (is_superuser u); cbn [negb].
    + exists w0, u. by split_and!.
    + cbv zeta. destruct (save_quiet (set_is_active false u) w0)
        as (w1 & u' & Hsave & Hg & Hle); [done|].
      exists w1, u'. split_and!; [done| |done].
      by eapply unique_names_same_groups.
Qed.

Lemma clear_groups_completes qs w :
  quiet fault w → Forall (λ u, is_Some (pk u)) qs →
  ∃ w' qs', clear_groups fault qs w = (w', Ok qs').
Proof.
  intros Hq Hqs. unfold clear_groups.
  edestruct (for_each_completes fault) with
    (Pre := λ u, is_Some (pk u)) (Inv := λ _ : World, True)
    as (w' & qs' & Hrun & _); [|exact Hqs|done|exact Hq|by eauto].
  intros u w0 Hk _ Hq0.
  destruct (groups_clear_quiet u w0 Hk Hq0) as (w1 & Hrun & _ & Hle).
  rewrite (bind_Ok_intro _ _ _ _ _ Hrun). cbv zeta.
  destruct (save_quiet (set_is_staff false (set_is_superuser false u)) w1)
    as (w2 & u' & Hsave & _ & Hle2); [by eapply quiet_later|].
  exists w2, u'. split_and!; [done|done|lia].
Qed.

Lemma deactivate_account_completes qs w :
  quiet fault w → ∃ w' qs', deactivate_account fault qs w = (w', Ok qs').
Proof.
  intros Hq.
  destruct (for_each_completes fault (deactivate_body fault)
              (λ _, True) (λ _, True)) with (qs := qs) (w := w)
    as (w' & qs' & Hrun & _); [|by apply Forall_true|done|done|by eauto].
  intros u w0 _ _ Hq0. unfold deactivate_body.
  destruct (is_superuser u); cbn [negb].
  - exists w0, u. by split_and!.
  - cbv zeta. destruct (save_quiet (set_is_active false u) w0)
      as (w1 & u' & Hsave & _ & Hle); [done|].
    by exists w1, u'.
Qed.

End Quiet.

Lemma loaded_has_pk d qs :
  Forall (loaded d) qs → Forall (λ u, is_Some (pk u)) qs.
Proof.
  intros H. eapply Forall_impl; [exact H|].
  intros u (k & Hk & _). by exists k.
Qed.


(** ** [add_to_admin] *)

Lemma add_to_admin_step fault u w w1 u' :
  (add_to_group fault u "admin";;
   let u := set_is_superuser true u in add_to_staff fault u) w = (w1, Ok u') →
  promoted (db w1) u ∧
  (∀ v, promoted (db w) v → promoted (db w1) v) ∧
  u' = set_is_staff true (set_is_superuser true u).
Proof.
  intros H. apply bind_Ok_inv in H as (wa & [] & Hg & Hs).
  destruct (add_to_group_belongs _ _ _ _ _ Hg) as (k & Hk & Hbel).
  pose proof (add_to_group_grows _ _ _ _ _ Hg) as Hgrows.
  apply add_to_group_Ok_inv in Hg as (k' & g & _ & Husers & _).
  cbv zeta in Hs.
  assert (Hk' : pk (set_is_superuser true u) = Some k) by done.
  destruct (add_to_staff_Ok_inv _ _ _ _ _ _ Hk' Hs) as (-> & _ & Hdb).
  assert (Hbel1 : ∀ j nm, belongs (db wa) j nm → belongs (db w1) j nm).
  { intros j nm. unfold belongs. by rewrite Hdb. }
  split_and!; [| |done].
  - exists k, (set_is_staff true (set_is_superuser true u)).
    split_and!; auto. rewrite Hdb. cbn. apply lookup_insert_eq.
  - intros v (j & r & Hj & Hr & Hsu & Hst & Hb).
    destruct (decide (k = j)) as [->|Hne].
    + exists j, (set_is_staff true (set_is_superuser true u)).
      split_and!; eauto using belongs_grows.
      rewrite Hdb. cbn. apply lookup_insert_eq.
    + exists j, r. split_and!; eauto using belongs_grows.
      rewrite Hdb. cbn. rewrite lookup_insert_ne by done. by rewrite Husers.
Qed.

(** C3. [add_to_admin] reaches the end of the queryset when no statement
    is refused (the names of the groups being unique and the objects
    having primary keys); and whenever it reaches the end, every selected
    account is joined to the group named "admin" and its row in the
    database has [is_superuser] and [is_staff] set; the objects of the
    queryset carry the two flags as well. *)
Theorem add_to_admin_promotes fault qs w :
  (quiet fault w → unique_names (db w) → Forall (λ u, is_Some (pk u)) qs →
   ∃ w' qs', add_to_admin fault qs w = (w', Ok qs')) ∧
  ∀ w' qs', add_to_admin fault qs w = (w', Ok qs') →
    Forall (λ u, ∃ k r, pk u = Some k ∧ users (db w') !! k = Some r ∧
              is_superuser r = true ∧ is_staff r = true ∧
              groups_filter_exists (db w') k "admin" = true) qs ∧
    Forall2 (λ u u', pk u' = pk u ∧ is_superuser u' = true ∧ is_staff u' = true)
            qs qs'.
Proof.
  split.
  { intros Hq Huniq Hqs.
    destruct (bulk_action_completes fault (add_to_admin fault) qs w)
      as (w' & qs' & Hrun & _); [|done|done|done|by eauto].
    unfold actions. apply list_elem_of_further, list_elem_of_here. }
  unfold add_to_admin. intros w' qs' Hrun. split.
  - eapply for_each_establishes with
      (Pre := λ _, True) (Inv := λ _, True) (Post := λ w u, promoted (db w) u)
      in Hrun as (_ & Hpost & _); [| |by apply Forall_true|done].
    + eapply Forall_impl; [exact Hpost|].
      intros u (k & r & ? & ? & ? & ? & ?). exists k, r.
      split_and!; try done. by apply groups_filter_exists_belongs.
    + intros u w0 w1 u' _ _ Hbody.
      apply add_to_admin_step in Hbody as (? & ? & _). auto.
  - eapply for_each_objects; [|exact Hrun].
    intros u w0 w1 u' Hbody.
    by apply add_to_admin_step in Hbody as (_ & _ & ->).
Qed.

(** ** [clear_groups] *)

Lemma clear_groups_step fault u w w1 u' :
  (groups_clear fault u;;
   let u := set_is_superuser false u in
   let u := set_is_staff false u in
   Model_save fault u) w = (w1, Ok u') →
  cleared (db w1) u ∧
  (∀ v, cleared (db w) v → cleared (db w1) v) ∧
  u' = set_is_staff false (set_is_superuser false u).
Proof.
  intros H. apply bind_Ok_inv in H as (wa & [] & Hc & Hs).
  apply groups_clear_Ok_inv in Hc as (k & Hk & Husers & _ & Hms).
  cbv zeta in Hs.
  assert (Hk' : pk (set_is_staff false (set_is_superuser false u)) = Some k) by done.
  destruct (save_keyed_Ok_inv _ _ _ _ _ _ Hk' Hs) as (-> & _ & Hdb).
  assert (Hsub : ∀ m, m ∈ auth_user_groups (db w1) →
                      m.1 ≠ k ∧ m ∈ auth_user_groups (db w)).
  { intros m. rewrite Hdb. cbn. rewrite Hms. by intros ?%list_elem_of_filter. }
  split_and!; [| |done].
  - exists k, (set_is_staff false (set_is_superuser false u)).
    split_and!; auto.
    + rewrite Hdb. cbn. apply lookup_insert_eq.
    + intros m Hm. by apply Hsub in Hm as [? _].
  - intros v (j & r & Hj & Hr & Hsu & Hst & Hno).
    assert (Hno' : no_membership (db w1) j).
    { intros m Hm. apply Hsub in Hm as [_ Hm]. by apply Hno. }
    destruct (decide (k = j)) as [->|Hne].
    + exists j, (set_is_staff false (set_is_superuser false u)).
      split_and!; auto. rewrite Hdb. cbn. apply lookup_insert_eq.
    + exists j, r. split_and!; auto.
      rewrite Hdb. cbn. rewrite lookup_insert_ne by done. by rewrite Husers.
Qed.

(** C2. [clear_groups] reaches the end of the queryset when no statement
    is refused (the objects having primary keys); and whenever it reaches
    the end, every selected account belongs to no group (no row of the relation names it,
    so [groups.all()] is empty) and its row has [is_superuser] and
    [is_staff] false; so have the objects of the queryset. *)
Theorem clear_groups_clears fault qs w :
  (quiet fault w → Forall (λ u, is_Some (pk u)) qs →
   ∃ w' qs', clear_groups fault qs w = (w', Ok qs')) ∧
  ∀ w' qs', clear_groups fault qs w = (w', Ok qs') →
    Forall (λ u, ∃ k r, pk u = Some k ∧ users (db w') !! k = Some r ∧
              is_superuser r = false ∧ is_staff r = false ∧
              groups_all (db w') k = [] ∧
              ∀ g, (k, g) ∉ auth_user_groups (db w')) qs ∧
    Forall2 (λ u u', pk u' = pk u ∧ is_superuser u' = false ∧ is_staff u' = false)
            qs qs'.
Proof.
  split; [apply clear_groups_completes|].
  unfold clear_groups. intros w' qs' Hrun. split.
  - eapply for_each_establishes with
      (Pre := λ _, True) (Inv := λ _, True) (Post := λ w u, cleared (db w) u)
      in Hrun as (_ & Hpost & _); [| |by apply Forall_true|done].
    + eapply Forall_impl; [exact Hpost|].
      intros u (k & r & ? & ? & ? & ? & Hno). exists k, r.
      split_and!; try done; [by apply no_membership_groups_all|].
      intros g Hin. by apply Hno in Hin.
    + intros u w0 w1 u' _ _ Hbody.
      apply clear_groups_step in Hbody as (? & ? & _). auto.
  - eapply for_each_objects; [|exact Hrun].
    intros u w0 w1 u' Hbody.
    by apply clear_groups_step in Hbody as (_ & _ & ->).
Qed.

(** ** [deactivate_account] *)

Lemma deactivation_of_refl d : deactivation_of d d.
Proof. split_and!; auto. Qed.

Lemma loaded_inj d u v k :
  loaded d u → loaded d v → pk u = Some k → pk v = Some k → u = v.
Proof.
  intros (j & Hj & Hu) (j' & Hj' & Hv) Hk Hk'.
  rewrite Hk in Hj. rewrite Hk' in Hj'. simplify_eq. congruence.
Qed.

Section Deactivate.

Variable fault : nat → bool.

Lemma deactivate_account_body qs :
  deactivate_account fault qs = for_each (deactivate_body fault) qs.
Proof. reflexivity. Qed.

(** A superuser is skipped: no statement is sent. *)
Lemma deactivate_body_superuser u w :
  is_superuser u = true → deactivate_body fault u w = (w, Ok u).
Proof. unfold deactivate_body. by intros ->. Qed.

(** Whatever its outcome, the body only deactivates. *)
Lemma deactivate_body_world d0 u w :
  loaded d0 u → deactivation_of d0 (db w) →
  deactivation_of d0 (db (deactivate_body fault u w).1).
Proof.
  intros (k & Hk & Hrow) Hw. unfold deactivate_body.
  destruct (is_superuser u) eqn:Hsu; cbn [negb]; [done|].
  cbv zeta. unfold Model_save, save.
  match goal with |- context [execute fault ?q w] =>
    destruct (execute_world fault q w) as [_ [->| ->]] end; [done|].
  cbv zeta. change (pk (set_is_active false u)) with (pk u).
  rewrite Hk. cbn [default fst]. unfold id.
  rewrite (set_pk_id (set_is_active false u) k) by done.
  destruct Hw as (Hg & Hm & Hrows). split_and!; [done|done|].
  cbn [users]. intros j. destruct (decide (k = j)) as [<-|Hne].
  - right. exists u. split_and!; [done|done|]. apply lookup_insert_eq.
  - rewrite lookup_insert_ne by done. apply Hrows.
Qed.

Lemma deactivate_body_Ok_inv u k w w1 u' :
  pk u = Some k →
  deactivate_body fault u w = (w1, Ok u') →
  if is_superuser u then w1 = w ∧ u' = u
  else u' = set_is_active false u ∧
       clock w1 = S (clock w) ∧
       db w1 = mkDB (<[k := set_is_active false u]> (users (db w)))
                    (auth_group (db w)) (auth_user_groups (db w)).
Proof.
  intros Hk. unfold deactivate_body.
  destruct (is_superuser u); cbn [negb].
  - by intros [= <- <-].
  - cbv zeta. intros H.
    assert (Hk' : pk (set_is_active false u) = Some k) by done.
    exact (save_keyed_Ok_inv _ _ _ _ _ _ Hk' H).
Qed.

(** The number of statements the loop sends is at most the number of
    selected accounts that are no superusers. *)
Lemma deactivate_account_clock qs w :
  clock (deactivate_account fault qs w).1
  ≤ clock w + length (filter (λ u, is_superuser u = false) qs).
Proof.
  rewrite deactivate_account_body. revert w.
  induction qs as [|u rest IH]; intros w; [cbn; lia|].
  cbn [for_each]. rewrite bind_run.
  assert (Hstep : clock (deactivate_body fault u w).1
                  ≤ clock w + (if is_superuser u then 0 else 1)).
  { unfold deactivate_body. destruct (is_superuser u); cbn [negb]; [cbn; lia|].
    cbv zeta. unfold Model_save, save.
    match goal with |- context [execute fault ?q w] =>
      destruct (execute_world fault q w) as [-> _] end. lia. }
  assert (Hlen : length (filter (λ u, is_superuser u = false) (u :: rest))
                 = (if is_superuser u then 0 else 1)
                   + length (filter (λ u, is_superuser u = false) rest)).
  { rewrite filter_cons.
    destruct (is_superuser u);
      [rewrite decide_False by done|rewrite decide_True by done]; done. }
  rewrite Hlen. clear Hlen.
  set (n := if is_superuser u then 0 else 1) in *. clearbody n.
  destruct (deactivate_body fault u w) as [w1 [u'|e]]; cbn [fst] in *; [|lia].
  rewrite bind_run. specialize (IH w1).
  destruct (for_each (deactivate_body fault) rest w1) as [w2 [rest'|e]]; cbn [fst] in *;
    rewrite ?ret_run; cbn [fst]; lia.
Qed.

Lemma deactivate_body_object u w w1 u' :
  deactivate_body fault u w = (w1, Ok u') →
  (is_superuser u = true → u' = u) ∧
  (is_superuser u = false → is_active u' = false).
Proof.
  unfold deactivate_body. destruct (is_superuser u); cbn [negb].
  - by intros [= <- <-].
  - cbv zeta. intros H. apply save_Ok_inv in H as (-> & _). done.
Qed.

(** A queryset of superusers goes through untouched, and so does the
    world: not one statement is sent. *)
Lemma deactivate_account_superusers qs w :
  Forall (λ u, is_superuser u = true) qs →
  deactivate_account fault qs w = (w, Ok qs).
Proof.
  rewrite deactivate_account_body.
  induction 1 as [|u rest Hu _ IH]; [done|].
  cbn [for_each].
  rewrite (bind_Ok_intro _ _ _ _ _ (deactivate_body_superuser u w Hu)).
  by rewrite (bind_Ok_intro _ _ _ _ _ IH).
Qed.

(** Whatever the outcome of the action, the database it leaves is the
    one it found up to deactivations. *)
Lemma deactivate_account_world qs w :
  Forall (loaded (db w)) qs →
  deactivation_of (db w) (db (deactivate_account fault qs w).1).
Proof.
  intros Hqs. rewrite deactivate_account_body.
  apply (for_each_preserves (deactivate_body fault) (loaded (db w))
           (λ w1, deactivation_of (db w) (db w1))); [|done|].
  - intros u w1. apply deactivate_body_world.
  - apply deactivation_of_refl.
Qed.

(** When the action reaches the end of the queryset, the row of every
    selected account that is no superuser is the object deactivated. *)
Lemma deactivate_account_rows qs w w' qs' :
  Forall (loaded (db w)) qs →
  deactivate_account fault qs w = (w', Ok qs') →
  Forall (λ u, ∃ k, pk u = Some k ∧
            (is_superuser u = false →
             users (db w') !! k = Some (set_is_active false u))) qs.
Proof.
  rewrite deactivate_account_body. intros Hqs Hrun.
  eapply for_each_establishes with
    (Pre := loaded (db w)) (Inv := λ _, True)
    (Post := λ w1 u, ∃ k, pk u = Some k ∧
               (is_superuser u = false →
                users (db w1) !! k = Some (set_is_active false u)))
    in Hrun as (_ & Hpost & _); [done| |done|done].
  intros u w0 w1 u' Hu _ Hbody. split; [done|].
  destruct Hu as (k & Hk & Hrow).
  pose proof (deactivate_body_Ok_inv _ _ _ _ _ Hk Hbody) as Hinv.
  split.
  - exists k. split; [done|]. intros Hsu. rewrite Hsu in Hinv.
    destruct Hinv as (_ & _ & ->). cbn. apply lookup_insert_eq.
  - intros v Hv (j & Hj & Hpost). exists j. split; [done|]. intros Hsv.
    destruct (is_superuser u) eqn:Hsu.
    + destruct Hinv as [-> _]. auto.
    + destruct Hinv as (_ & _ & ->). cbn.
      destruct (decide (k = j)) as [->|Hne].
      * assert (u = v) as ->.
        { eapply (loaded_inj (db w)); eauto. by exists j. }
        apply lookup_insert_eq.
      * rewrite lookup_insert_ne by done. auto.
Qed.

End Deactivate.

(** C1. On a queryset evaluated on the database, [deactivate_account]
    reaches the end when no statement is refused; and whenever it reaches
    the end, the row of every selected account keeps its [is_active] when the account is a superuser and has
    [is_active] false when it is not; so have the objects of the
    queryset. *)
Theorem deactivate_account_is_active fault qs w :
  Forall (loaded (db w)) qs →
  (quiet fault w → ∃ w' qs', deactivate_account fault qs w = (w', Ok qs')) ∧
  ∀ w' qs', deactivate_account fault qs w = (w', Ok qs') →
    Forall (λ u, ∃ k r, pk u = Some k ∧ users (db w') !! k = Some r ∧
              (is_superuser u = true → is_active r = is_active u) ∧
              (is_superuser u = false → is_active r = false)) qs ∧
    Forall2 (λ u u', (is_superuser u = true → is_active u' = is_active u) ∧
                     (is_superuser u = false → is_active u' = false)) qs qs'.
Proof.
  intros Hqs. split; [apply deactivate_account_completes|].
  intros w' qs' Hrun. split.
  - pose proof (deactivate_account_rows fault qs w w' qs' Hqs Hrun) as Hrows.
    pose proof (deactivate_account_world fault qs w Hqs) as Hworld.
    rewrite Hrun in Hworld. cbn [fst] in Hworld.
    destruct Hworld as (_ & _ & Hkeep).
    rewrite Forall_forall in Hqs, Hrows. apply Forall_forall. intros u Hu.
    destruct (Hqs u Hu) as (k & Hk & Hrow).
    destruct (Hrows u Hu) as (k' & Hk' & Hpost).
    assert (k' = k) as -> by congruence.
    destruct (is_superuser u) eqn:Hsu.
    + exists k, u. split_and!; [done| |done|done].
      destruct (Hkeep k) as [->|(r & Hr & Hns & _)]; [done|].
      congruence.
    + exists k, (set_is_active false u). split_and!; auto. done.
  - rewrite deactivate_account_body in Hrun.
    eapply for_each_objects; [|exact Hrun].
    intros u w0 w1 u' Hbody.
    apply deactivate_body_object in Hbody as [Hsu Hns].
    split; [by intros ->%Hsu|done].
Qed.

(** C8. On a queryset evaluated on the database, and whatever the
    outcome of [deactivate_account]: the groups and the memberships are
    untouched, no account appears or disappears, and a row differs from
    what it was in [is_active] at most; the row of a superuser is the
    same record.  A superuser costs no statement: the action sends at
    most one per selected account that is no superuser. *)
Theorem deactivate_account_frame fault qs w :
  Forall (loaded (db w)) qs →
  let w' := (deactivate_account fault qs w).1 in
  auth_group (db w') = auth_group (db w) ∧
  auth_user_groups (db w') = auth_user_groups (db w) ∧
  (∀ k, users (db w) !! k = None → users (db w') !! k = None) ∧
  (∀ k r, users (db w) !! k = Some r →
     ∃ r', users (db w') !! k = Some r' ∧
       pk r' = pk r ∧ email r' = email r ∧ password r' = password r ∧
       is_staff r' = is_staff r ∧ is_superuser r' = is_superuser r ∧
       (is_superuser r = true → r' = r)) ∧
  clock w' ≤ clock w + length (filter (λ u, is_superuser u = false) qs).
Proof.
  intros Hqs w'.
  destruct (deactivate_account_world fault qs w Hqs) as (Hg & Hm & Hrows).
  fold w' in Hg, Hm, Hrows.
  split_and!; [done|done| | |apply deactivate_account_clock].
  - intros k Hnone. destruct (Hrows k) as [->|(r & Hr & _)]; congruence.
  - intros k r Hr. destruct (Hrows k) as [Hsame|(r0 & Hr0 & Hns & Hnew)].
    + exists r. rewrite Hsame. done.
    + assert (r0 = r) as -> by congruence.
      exists (set_is_active false r). split_and!; try done. congruence.
Qed.

(** ** [add_to_volunteer] *)

Lemma add_to_volunteer_step fault u w w1 u' :
  (add_to_group fault u "volunteer";; mret u) w = (w1, Ok u') →
  u' = u ∧ users (db w1) = users (db w) ∧ grows (db w) (db w1) ∧
  ∃ k, pk u = Some k ∧ belongs (db w1) k "volunteer".
Proof.
  intros H. apply bind_Ok_inv in H as (wa & [] & Hg & Hr).
  injection Hr as <- <-.
  split_and!; [done| |by eapply add_to_group_grows|by eapply add_to_group_belongs].
  by apply add_to_group_Ok_inv in Hg as (k & g & _ & ? & _).
Qed.

Lemma add_to_volunteer_Ok_inv fault qs w w1 qs1 :
  add_to_volunteer fault qs w = (w1, Ok qs1) →
  qs1 = qs ∧ users (db w1) = users (db w) ∧
  Forall (λ u, ∃ k, pk u = Some k ∧ belongs (db w1) k "volunteer") qs.
Proof.
  unfold add_to_volunteer. intros Hrun. split_and!.
  - eapply for_each_objects with (R := λ u u', u' = u) in Hrun.
    + clear -Hrun. induction Hrun; [done|]. by f_equal.
    + intros u w0 w' u' Hbody. by apply add_to_volunteer_step in Hbody as (? & _).
  - eapply for_each_establishes with
      (Pre := λ _, True) (Inv := λ w', users (db w') = users (db w))
      (Post := λ _ _, True) in Hrun as (? & _); [done| |by apply Forall_true|done].
    intros u w0 w' u' _ Hw0 Hbody.
    apply add_to_volunteer_step in Hbody as (_ & -> & _). auto.
  - eapply for_each_establishes with
      (Pre := λ _, True) (Inv := λ _, True)
      (Post := λ w' u, ∃ k, pk u = Some k ∧ belongs (db w') k "volunteer")
      in Hrun as (_ & ? & _); [done| |by apply Forall_true|done].
    intros u w0 w' u' _ _ Hbody.
    apply add_to_volunteer_step in Hbody as (_ & _ & Hgrows & Hu).
    split_and!; [done|done|].
    intros v _ (k & ? & ?). exists k. eauto using belongs_grows.
Qed.

(** C6. On a queryset evaluated on the database, [add_to_volunteer] and
    then [deactivate_account] reach their ends when no statement is refused
    (the names of the groups being unique).  When [add_to_volunteer]
    reaches its end every selected account is joined to the group named
    "volunteer", and no flag has moved: the table of accounts and the
    objects are what they were, [is_staff] included.  When
    [deactivate_account] then runs on the same queryset to its end, every
    selected account that is no superuser has [is_active] false in its
    row, with the [is_staff] it had and still in the group. *)
Theorem add_to_volunteer_then_deactivate fault qs w :
  Forall (loaded (db w)) qs →
  (quiet fault w → unique_names (db w) →
   ∃ w1 qs1 w2 qs2, add_to_volunteer fault qs w = (w1, Ok qs1) ∧
     deactivate_account fault qs1 w1 = (w2, Ok qs2)) ∧
  ∀ w1 qs1, add_to_volunteer fault qs w = (w1, Ok qs1) →
    qs1 = qs ∧
    users (db w1) = users (db w) ∧
    Forall (λ u, ∃ k, pk u = Some k ∧
              groups_filter_exists (db w1) k "volunteer" = true ∧
              users (db w1) !! k = Some u) qs ∧
    ∀ w2 qs2, deactivate_account fault qs1 w1 = (w2, Ok qs2) →
      Forall (λ u, is_superuser u = false →
                ∃ k r, pk u = Some k ∧ users (db w2) !! k = Some r ∧
                  is_active r = false ∧ is_staff r = is_staff u ∧
                  groups_filter_exists (db w2) k "volunteer" = true) qs.
Proof.
  intros Hqs. split.
  { intros Hq Huniq.
    destruct (bulk_action_completes fault (add_to_volunteer fault) qs w)
      as (w1 & qs1 & Hrun & _ & Hle);
      [|done|done|by eapply loaded_has_pk|].
    { unfold actions. do 4 apply list_elem_of_further. apply list_elem_of_here. }
    destruct (deactivate_account_completes fault qs1 w1) as (w2 & qs2 & Hrun2);
      [by eapply quiet_later|].
    by exists w1, qs1, w2, qs2. }
  intros w1 qs1 Hvol.
  apply add_to_volunteer_Ok_inv in Hvol as (-> & Husers & Hbel).
  assert (Hqs1 : Forall (loaded (db w1)) qs).
  { eapply Forall_impl; [exact Hqs|]. intros u (k & ? & ?). exists k.
    by rewrite Husers. }
  split_and!; [done|done| |].
  - rewrite Forall_forall in Hqs, Hbel. apply Forall_forall. intros u Hu.
    destruct (Hqs u Hu) as (k & Hk & Hrow).
    destruct (Hbel u Hu) as (k' & Hk' & Hb).
    assert (k' = k) as -> by congruence.
    exists k. split_and!; [done| |by rewrite Husers].
    by apply groups_filter_exists_belongs.
  - intros w2 qs2 Hrun.
    pose proof (deactivate_account_rows fault qs w1 w2 qs2 Hqs1 Hrun) as Hrows.
    pose proof (deactivate_account_world fault qs w1 Hqs1) as Hworld.
    rewrite Hrun in Hworld. cbn [fst] in Hworld.
    destruct Hworld as (Hg & Hm & _).
    rewrite Forall_forall in Hrows, Hbel. apply Forall_forall. intros u Hu Hns.
    destruct (Hrows u Hu) as (k & Hk & Hrow).
    destruct (Hbel u Hu) as (k' & Hk' & Hb).
    assert (k' = k) as -> by congruence.
    exists k, (set_is_active false u). split_and!; auto.
    apply groups_filter_exists_belongs.
    unfold belongs in *. by rewrite Hg, Hm.
Qed.

(** ** [add_to_core] *)

Section AddToCore.

Variable fault : nat → bool.

Lemma add_to_core_body qs : add_to_core fault qs = for_each (core_body fault) qs.
Proof. reflexivity. Qed.

(** A statement that changes nothing. *)
Lemma execute_readonly {A : Type} (q : DB → DB * A) w a :
  q (db w) = (db w, a) →
  execute fault q w =
    (tick w, if fault (clock w) then Raise DatabaseError else Ok a).
Proof. unfold execute. intros ->. by destruct (fault (clock w)). Qed.

Lemma get_or_create_found nm g w :
  filter (λ g, name g = nm) (auth_group (db w)) = [g] →
  get_or_create fault nm w =
    (tick w, if fault (clock w) then Raise DatabaseError else Ok (g, false)).
Proof.
  intros Hf. unfold get_or_create, objects_get.
  rewrite !bind_run.
  rewrite (execute_readonly _ w [g]) by by rewrite Hf.
  by destruct (fault (clock w)).
Qed.

Lemma groups_add_present u k g w :
  pk u = Some k → (k, gid g) ∈ auth_user_groups (db w) →
  groups_add fault u g w =
    (tick w, if fault (clock w) then Raise DatabaseError else Ok ()).
Proof.
  intros Hk Hin. unfold groups_add, groups_manager. rewrite Hk, bind_run.
  rewrite ret_run. apply execute_readonly. by rewrite decide_True.
Qed.

Lemma save_same u k w :
  pk u = Some k → users (db w) !! k = Some u →
  Model_save fault u w =
    (tick w, if fault (clock w) then Raise DatabaseError else Ok u).
Proof.
  intros Hk Hrow. unfold Model_save, save. apply execute_readonly.
  rewrite Hk. cbn [default from_option]. unfold id.
  rewrite (set_pk_id u k) by done.
  rewrite insert_id by done. by destruct (db w).
Qed.

(** On a settled account the body changes no table, whatever its
    outcome, and hands the object back as it is. *)
Lemma core_body_settled u w :
  in_core (db w) u →
  db (core_body fault u w).1 = db w ∧
  clock w ≤ clock (core_body fault u w).1 ∧
  ((core_body fault u w).2 = Ok u ∨ (core_body fault u w).2 = Raise DatabaseError) ∧
  (quiet fault w → (core_body fault u w).2 = Ok u).
Proof.
  intros (k & g & Hk & Hrow & Hstaff & Hf & Hin).
  assert (Hu : set_is_staff true u = u).
  { destruct u. cbn in *. by rewrite Hstaff. }
  unfold core_body, add_to_group, add_to_staff. rewrite !bind_run.
  rewrite (get_or_create_found _ g) by done.
  destruct (fault (clock w)) eqn:F0.
  { cbn. split_and!; auto. intros Hq. rewrite Hq in F0; [done|lia]. }
  rewrite (groups_add_present u k g) by done. cbn [tick clock].
  destruct (fault (S (clock w))) eqn:F1.
  { cbn. split_and!; auto. intros Hq. rewrite Hq in F1; [done|lia]. }
  cbv zeta. rewrite Hu.
  rewrite (save_same u k) by done. cbn [tick clock db fst snd].
  destruct (fault (S (S (clock w)))) eqn:F2.
  { split_and!; auto. intros Hq. rewrite Hq in F2; [done|lia]. }
  split_and!; auto.
Qed.

(** So does the loop on a queryset of settled accounts. *)
Lemma add_to_core_settled qs w :
  Forall (in_core (db w)) qs →
  db (add_to_core fault qs w).1 = db w ∧
  (∀ qs', (add_to_core fault qs w).2 = Ok qs' → qs' = qs) ∧
  (quiet fault w → (add_to_core fault qs w).2 = Ok qs).
Proof.
  rewrite add_to_core_body. revert w.
  induction qs as [|u rest IH]; intros w Hqs.
  { cbn. split_and!; auto. by intros ? [= <-]. }
  apply Forall_cons in Hqs as [Hu Hrest].
  destruct (core_body_settled u w Hu) as (Hdb & Hclock & Hres & Hquiet).
  cbn [for_each]. rewrite bind_run.
  destruct (core_body fault u w) as [w1 r]. cbn [fst snd] in *.
  destruct Hres as [-> | ->].
  - rewrite <- Hdb in Hrest. destruct (IH w1 Hrest) as (Hdb' & Hobj & Hq).
    rewrite bind_run.
    destruct (for_each (core_body fault) rest w1) as [w2 [rest'|e]]; cbn [fst snd] in *.
    + rewrite ret_run. cbn. split_and!; [congruence| |].
      * intros qs' [= <-]. f_equal. by apply Hobj.
      * intros Hqw. assert (Hq1 : quiet fault w1).
        { intros t Ht. apply Hqw. lia. }
        specialize (Hq Hq1). by injection Hq as ->.
    + split_and!; [congruence|done|].
      intros Hqw. assert (Hq1 : quiet fault w1).
      { intros t Ht. apply Hqw. lia. }
      by specialize (Hq Hq1).
  - cbn. split_and!; [done|done|]. intros Hqw. by specialize (Hquiet Hqw).
Qed.

(** The first pass over an account: the account is settled afterwards,
    the accounts settled before stay so, and no membership row is
    doubled. *)
Lemma core_body_first d0 u w w1 u' :
  loaded d0 u →
  core_body fault u w = (w1, Ok u') →
  u' = set_is_staff true u ∧
  in_core (db w1) (set_is_staff true u) ∧
  (∀ v, loaded d0 v → in_core (db w) (set_is_staff true v) →
        in_core (db w1) (set_is_staff true v)) ∧
  (NoDup (auth_user_groups (db w)) → NoDup (auth_user_groups (db w1))).
Proof.
  intros Hu H. unfold core_body in H.
  apply bind_Ok_inv in H as (wa & [] & Hg & Hs).
  apply add_to_group_Ok_inv in Hg
    as (k & g & Hk & Husers & Hf & Hin & Hgroups & Hms).
  destruct (add_to_staff_Ok_inv _ _ _ _ _ _ Hk Hs) as (-> & _ & Hdb).
  split_and!; [done| | |].
  - exists k, g. rewrite Hdb. cbn [users auth_group auth_user_groups].
    split_and!; auto. apply lookup_insert_eq.
  - intros v Hv (j & g' & Hj & Hrow & Hstaff & Hf' & Hin').
    assert (Hsame : auth_group (db wa) = auth_group (db w)).
    { destruct Hgroups as [?|[Hnone _]]; [done|]. by rewrite Hnone in Hf'. }
    exists j, g'. rewrite Hdb. cbn [users auth_group auth_user_groups].
    rewrite Hsame. split_and!; auto.
    + destruct (decide (k = j)) as [->|Hne].
      * assert (u = v) as -> by (eapply loaded_inj; eauto).
        apply lookup_insert_eq.
      * rewrite lookup_insert_ne by done. by rewrite Husers.
    + destruct Hms as [[_ ->]|[_ ->]]; [done|]. apply elem_of_app. auto.
  - intros Hnd. rewrite Hdb. cbn [auth_user_groups].
    destruct Hms as [[_ ->]|[Hnin ->]]; [done|].
    apply NoDup_app. split_and!; [done| |apply NoDup_singleton].
    intros m Hm ->%list_elem_of_singleton. done.
Qed.

Lemma add_to_core_first qs w w1 qs1 :
  Forall (loaded (db w)) qs →
  add_to_core fault qs w = (w1, Ok qs1) →
  qs1 = set_is_staff true <$> qs ∧
  Forall (in_core (db w1)) qs1 ∧
  (NoDup (auth_user_groups (db w)) → NoDup (auth_user_groups (db w1))).
Proof.
  rewrite add_to_core_body. intros Hqs Hrun.
  assert (Hobj : qs1 = set_is_staff true <$> qs).
  { eapply for_each_relates with
      (Pre := loaded (db w)) (Inv := λ _, True)
      (R := λ u u', u' = set_is_staff true u) in Hrun; [| |done|done].
    - clear -Hrun. induction Hrun; [done|]. cbn. by f_equal.
    - intros u w0 w' u' Hu _ Hbody.
      by apply (core_body_first (db w)) in Hbody as (? & _). }
  split_and!; [done| |].
  - rewrite Hobj. apply Forall_fmap.
    eapply for_each_establishes with
      (Pre := loaded (db w)) (Inv := λ _, True)
      (Post := λ w' u, in_core (db w') (set_is_staff true u))
      in Hrun as (_ & ? & _); [done| |done|done].
    intros u w0 w' u' Hu _ Hbody.
    apply (core_body_first (db w)) in Hbody as (_ & ? & ? & _); auto.
  - intros Hnd.
    eapply for_each_establishes with
      (Pre := loaded (db w)) (Inv := λ w', NoDup (auth_user_groups (db w')))
      (Post := λ _ _, True) in Hrun as (? & _); [done| |done|done].
    intros u w0 w' u' Hu Hnd0 Hbody.
    apply (core_body_first (db w)) in Hbody as (_ & _ & _ & ?); auto.
Qed.

End AddToCore.

(** C5. On a queryset evaluated on the database, [add_to_core] reaches
    the end when no statement is refused (the names of the groups being
    unique).  Once it has reached its end, applying it again to the same accounts changes no
    table, whatever the outcome of the second run, which hands back the
    same objects and does reach its end when no statement is refused.
    After both there is exactly one group named "core" (the queryset not
    being empty), and the relation has no doubled row if it had none. *)
Theorem add_to_core_idempotent fault qs w :
  Forall (loaded (db w)) qs →
  (quiet fault w → unique_names (db w) →
   ∃ w1 qs1, add_to_core fault qs w = (w1, Ok qs1)) ∧
  ∀ w1 qs1, add_to_core fault qs w = (w1, Ok qs1) →
    let again := add_to_core fault qs1 w1 in
    db again.1 = db w1 ∧
    (∀ qs2, again.2 = Ok qs2 → qs2 = qs1) ∧
    (quiet fault w1 → again.2 = Ok qs1) ∧
    (qs ≠ [] →
     ∃ g, filter (λ g, name g = "core") (auth_group (db again.1)) = [g]) ∧
    (NoDup (auth_user_groups (db w)) → NoDup (auth_user_groups (db again.1))).
Proof.
  intros Hqs. split.
  { intros Hq Huniq.
    destruct (bulk_action_completes fault (add_to_core fault) qs w)
      as (w1 & qs1 & Hrun & _); [|done|done|by eapply loaded_has_pk|by eauto].
    unfold actions. do 2 apply list_elem_of_further. apply list_elem_of_here. }
  intros w1 qs1 Hrun again.
  destruct (add_to_core_first fault qs w w1 qs1 Hqs Hrun) as (Hobj & Hsettled & Hnd).
  destruct (add_to_core_settled fault qs1 w1 Hsettled) as (Hdb & Hsame & Hquiet).
  fold again in Hdb, Hsame, Hquiet.
  split_and!; [done|done|done| |by rewrite Hdb].
  intros Hne. rewrite Hdb.
  destruct qs as [|u rest]; [done|]. rewrite Hobj in Hsettled.
  apply Forall_cons in Hsettled as [(k & g & _ & _ & _ & Hf & _) _]. eauto.
Qed.

(** ** Failures *)

Lemma for_each_single_Raise body u w w' e :
  for_each body [u] w = (w', Raise e) → body u w = (w', Raise e).
Proof.
  cbn [for_each]. rewrite bind_run.
  destruct (body u w) as [w1 [u'|e1]]; [|by intros [= <- <-]].
  rewrite bind_run, ret_run. discriminate.
Qed.

(** C4, as the code has it.  Whichever the action, when it gets through
    the accounts selected before [u] and fails on [u], the action on the
    whole selection fails with the same error, in the world that the
    failure on [u] left: what was done for the accounts before [u] stays,
    and no account after [u] is processed. *)
Theorem bulk_action_stops_at_first_failure fault action before u after
    w w1 before' w2 e :
  action ∈ actions fault →
  action before w = (w1, Ok before') →
  action [u] w1 = (w2, Raise e) →
  action (before ++ u :: after) w = (w2, Raise e).
Proof.
  unfold actions. rewrite !elem_of_cons, elem_of_nil.
  intros [->|[->|[->|[->|[->|[->|[->|[]]]]]]]] Hbefore Hu;
    unfold clear_groups, add_to_admin, add_to_core, add_to_pickleader,
      add_to_volunteer, add_to_owner, deactivate_account in *;
    apply for_each_single_Raise in Hu;
    exact (for_each_aborts _ _ _ _ _ _ _ _ _ Hbefore Hu).
Qed.

(** * The forms *)

Lemma truthy_true v : truthy v = true ↔ ∃ s, v = PyStr s ∧ s ≠ EmptyString.
Proof.
  destruct v as [|s]; cbn.
  - split; [done|]. by intros (? & ? & _).
  - rewrite bool_decide_eq_true. split; [eauto|]. by intros (? & [= <-] & ?).
Qed.

Lemma truthy_false v : truthy v = false ↔ v = PyNone ∨ v = PyStr EmptyString.
Proof.
  destruct v as [|s]; cbn.
  - split; auto.
  - rewrite bool_decide_eq_false. split.
    + intros H. right. f_equal. by destruct (decide (s = EmptyString)).
    + intros [?|[= ->]]; [done|]. auto.
Qed.

(** ** [CustomUserCreationForm.clean_password2] *)

Lemma clean_password2_differ (self : CustomUserCreationForm.Form) s1 s2 :
  dict_get (CustomUserCreationForm.cleaned_data self) "password1" = PyStr s1 →
  dict_get (CustomUserCreationForm.cleaned_data self) "password2" = PyStr s2 →
  s1 ≠ EmptyString → s2 ≠ EmptyString → s1 ≠ s2 →
  CustomUserCreationForm.clean_password2 self
  = Raise (ValidationError "Passwords do not match.").
Proof.
  intros E1 E2 N1 N2 Hd. unfold CustomUserCreationForm.clean_password2.
  rewrite E1, E2. cbn [truthy].
  rewrite !bool_decide_eq_true_2; [done|congruence|done|done].
Qed.

(** C10. [clean_password2] raises exactly when both cleaned password
    values are non-empty strings and differ, and then with the message of
    the source; whenever one of the two is empty ([None] or the empty
    string) it accepts and returns [password2], whatever the other is. *)
Theorem clean_password2_raises_iff (self : CustomUserCreationForm.Form) :
  let password1 := dict_get (CustomUserCreationForm.cleaned_data self) "password1" in
  let password2 := dict_get (CustomUserCreationForm.cleaned_data self) "password2" in
  (CustomUserCreationForm.clean_password2 self
     = Raise (ValidationError "Passwords do not match.")
   ↔ ∃ s1 s2, password1 = PyStr s1 ∧ password2 = PyStr s2 ∧
       s1 ≠ EmptyString ∧ s2 ≠ EmptyString ∧ s1 ≠ s2) ∧
  (∀ e, CustomUserCreationForm.clean_password2 self = Raise e →
        e = ValidationError "Passwords do not match.") ∧
  (password1 = PyNone ∨ password1 = PyStr EmptyString ∨
   password2 = PyNone ∨ password2 = PyStr EmptyString →
   CustomUserCreationForm.clean_password2 self = Ok password2).
Proof.
  intros password1 password2. unfold CustomUserCreationForm.clean_password2.
  fold password1 password2.
  destruct (truthy password1) eqn:T1; cbn [andb].
  - destruct (truthy password2) eqn:T2; cbn [andb].
    + apply truthy_true in T1 as (s1 & E1 & N1).
      apply truthy_true in T2 as (s2 & E2 & N2).
      rewrite E1, E2.
      destruct (decide (PyStr s1 = PyStr s2)) as [Heq|Hne].
      * rewrite bool_decide_eq_false_2 by auto. split_and!.
        -- split; [done|]. intros (t1 & t2 & [= <-] & [= <-] & _ & _ & Hd).
           by injection Heq.
        -- done.
        -- by intros [|[[= ->]|[|[= ->]]]].
      * rewrite bool_decide_eq_true_2 by done. split_and!.
        -- split; [|done]. intros _. exists s1, s2. split_and!; auto. congruence.
        -- by intros e [= <-].
        -- by intros [|[[= ->]|[|[= ->]]]].
    + split_and!; [|done|done].
      split; [done|]. intros (s1 & s2 & _ & E2 & _ & N2 & _).
      apply truthy_false in T2 as [T2|T2]; rewrite T2 in E2; [done|].
      by injection E2 as <-.
  - split_and!; [|done|done].
    split; [done|]. intros (s1 & s2 & E1 & _ & N1 & _).
    apply truthy_false in T1 as [T1|T1]; rewrite T1 in E1; [done|].
    by injection E1 as <-.
Qed.

(** C7, as the code has it.  When the two cleaned password values are
    non-empty strings that differ, [clean_password2] raises the validation
    error; the form is then invalid, the add view saves nothing and leaves
    the world as it was, and [save] on that form refuses with
    [ValueError] before any statement is sent. *)
Theorem mismatch_is_rejected fault make_password
    (submitted : CustomUserCreationForm.Form) s1 s2 w :
  dict_get (CustomUserCreationForm.cleaned_data submitted) "password1" = PyStr s1 →
  dict_get (CustomUserCreationForm.cleaned_data submitted) "password2" = PyStr s2 →
  s1 ≠ EmptyString → s2 ≠ EmptyString → s1 ≠ s2 →
  let form := CustomUserCreationForm.clean_field_password2 submitted in
  CustomUserCreationForm.clean_password2 submitted
    = Raise (ValidationError "Passwords do not match.") ∧
  CustomUserCreationForm.is_valid form = false ∧
  CustomUserCreationForm.add_view fault make_password submitted w
    = (w, Ok (form, None)) ∧
  ∀ commit, CustomUserCreationForm.save fault make_password form commit w
    = (w, Raise ValueError).
Proof.
  intros E1 E2 N1 N2 Hd form.
  assert (Hraise : CustomUserCreationForm.clean_password2 submitted
                   = Raise (ValidationError "Passwords do not match.")).
  { by apply (clean_password2_differ submitted s1 s2). }
  assert (Hinvalid : CustomUserCreationForm.is_valid form = false).
  { unfold form, CustomUserCreationForm.clean_field_password2. rewrite Hraise.
    unfold CustomUserCreationForm.is_valid. cbn.
    apply bool_decide_eq_false. by destruct (CustomUserCreationForm.errors submitted). }
  split_and!; [done|done| |].
  - unfold CustomUserCreationForm.add_view. fold form. by rewrite Hinvalid.
  - intros commit. unfold CustomUserCreationForm.save,
      CustomUserCreationForm.ModelForm_save.
    rewrite bind_run, Hinvalid. done.
Qed.

(** ** [CustomUserChangeForm.clean_password] *)

(** C9. Whatever is submitted, the cleaned password of the change form is
    the initial value: two forms with the same initial values clean to the
    same result, which is the initial password when there is one; on the
    form bound to an account, it is the password the account has. *)
Theorem clean_password_ignores_submission
    (init data1 data2 : gmap string PyVal) (v : PyVal) (u : AuthUser) :
  CustomUserChangeForm.clean_password (CustomUserChangeForm.mkForm init data1)
  = CustomUserChangeForm.clean_password (CustomUserChangeForm.mkForm init data2) ∧
  CustomUserChangeForm.clean_password
    (CustomUserChangeForm.mkForm (<["password" := v]> init) data1) = Ok v ∧
  CustomUserChangeForm.clean_password (CustomUserChangeForm.bound_to u data1)
  = Ok (PyStr (password u)).
Proof.
  unfold CustomUserChangeForm.clean_password. cbn [CustomUserChangeForm.initial].
  split_and!; [done| |].
  - by rewrite lookup_insert_eq.
  - unfold CustomUserChangeForm.bound_to, CustomUserChangeForm.model_to_dict.
    cbn [CustomUserChangeForm.initial].
    rewrite lookup_insert_ne by done. by rewrite lookup_insert_eq.
Qed.

(** * Concrete runs *)

Import Fixture.

Ltac run := vm_compute; reflexivity.

Ltac all_loaded :=
  repeat (apply Forall_cons; split; [eexists; split; [reflexivity|run]|]);
  apply Forall_nil_2.

Lemma deactivate_account_is_active_witness :
  ∃ w' qs', deactivate_account never [alice; root] start = (w', Ok qs') ∧
    Forall (λ u, ∃ k r, pk u = Some k ∧ users (db w') !! k = Some r ∧
              (is_superuser u = true → is_active r = is_active u) ∧
              (is_superuser u = false → is_active r = false)) [alice; root] ∧
    Forall2 (λ u u', (is_superuser u = true → is_active u' = is_active u) ∧
                     (is_superuser u = false → is_active u' = false))
            [alice; root] qs'.
Proof.
  eexists _, _. split; [run|].
  apply (deactivate_account_is_active never [alice; root] start); [all_loaded|run].
Defined.

Lemma clear_groups_clears_witness :
  ∃ w' qs', clear_groups never [bob; root] start = (w', Ok qs') ∧
    Forall (λ u, ∃ k r, pk u = Some k ∧ users (db w') !! k = Some r ∧
              is_superuser r = false ∧ is_staff r = false ∧
              groups_all (db w') k = [] ∧
              ∀ g, (k, g) ∉ auth_user_groups (db w')) [bob; root] ∧
    Forall2 (λ u u', pk u' = pk u ∧ is_superuser u' = false ∧ is_staff u' = false)
            [bob; root] qs'.
Proof.
  eexists _, _. split; [run|].
  apply (clear_groups_clears never [bob; root] start). run.
Defined.

Lemma add_to_admin_promotes_witness :
  ∃ w' qs', add_to_admin never [alice; bob] start = (w', Ok qs') ∧
    Forall (λ u, ∃ k r, pk u = Some k ∧ users (db w') !! k = Some r ∧
              is_superuser r = true ∧ is_staff r = true ∧
              groups_filter_exists (db w') k "admin" = true) [alice; bob] ∧
    Forall2 (λ u u', pk u' = pk u ∧ is_superuser u' = true ∧ is_staff u' = true)
            [alice; bob] qs'.
Proof.
  eexists _, _. split; [run|].
  apply (add_to_admin_promotes never [alice; bob] start). run.
Defined.

Lemma bulk_action_stops_at_first_failure_witness :
  ∃ w1 w2,
    deactivate_account second_refused [alice] start
      = (w1, Ok [set_is_active false alice]) ∧
    deactivate_account second_refused [bob] w1 = (w2, Raise DatabaseError) ∧
    deactivate_account second_refused [alice; bob; carol] start
      = (w2, Raise DatabaseError) ∧
    users (db w2) !! 1 = Some (set_is_active false alice) ∧
    users (db w2) !! 4 = Some carol.
Proof.
  eexists _, _. split; [run|]. split; [run|]. split; [|split; run].
  eapply (bulk_action_stops_at_first_failure second_refused
            (deactivate_account second_refused) [alice] bob [carol] start).
  - do 6 apply list_elem_of_further. apply list_elem_of_here.
  - run.
  - run.
Defined.

(** C4 fails on the code: with the first statement refused, each of the
    three actions raises on alice and never comes to the next account,
    whose row and groups are what they were, although the action on that
    account alone, from the world the failure left, goes through. *)
Lemma failure_prevents_the_remaining_accounts :
  (let stopped := deactivate_account first_refused [alice; carol] start in
   stopped.2 = Raise DatabaseError ∧
   users (db stopped.1) !! 4 = Some carol ∧
   is_superuser carol = false ∧ is_active carol = true ∧
   (deactivate_account first_refused [carol] stopped.1).2
     = Ok [set_is_active false carol]) ∧
  (let stopped := clear_groups first_refused [alice; bob] start in
   stopped.2 = Raise DatabaseError ∧
   users (db stopped.1) !! 2 = Some bob ∧
   is_staff bob = true ∧
   groups_filter_exists (db stopped.1) 2 "core" = true ∧
   (clear_groups first_refused [bob] stopped.1).2
     = Ok [set_is_staff false bob]) ∧
  (let stopped := add_to_admin first_refused [alice; bob] start in
   stopped.2 = Raise DatabaseError ∧
   users (db stopped.1) !! 2 = Some bob ∧
   is_superuser bob = false ∧
   groups_filter_exists (db stopped.1) 2 "admin" = false ∧
   (add_to_admin first_refused [bob] stopped.1).2
     = Ok [set_is_superuser true bob]).
Proof. cbv zeta. split_and!; run. Qed.

Lemma add_to_core_idempotent_witness :
  ∃ w1 qs1, add_to_core never [alice; bob] start = (w1, Ok qs1) ∧
    let again := add_to_core never qs1 w1 in
    db again.1 = db w1 ∧
    (∀ qs2, again.2 = Ok qs2 → qs2 = qs1) ∧
    (quiet never w1 → again.2 = Ok qs1) ∧
    ([alice; bob] ≠ [] →
     ∃ g, filter (λ g, name g = "core") (auth_group (db again.1)) = [g]) ∧
    (NoDup (auth_user_groups (db start)) →
     NoDup (auth_user_groups (db again.1))).
Proof.
  eexists _, _. split; [run|].
  apply (add_to_core_idempotent never [alice; bob] start); [all_loaded|run].
Defined.

Lemma add_to_volunteer_then_deactivate_witness :
  ∃ w1 qs1, add_to_volunteer never [alice] start = (w1, Ok qs1) ∧
    groups_all (db start) 1 = [] ∧
    qs1 = [alice] ∧
    users (db w1) = users (db start) ∧
    Forall (λ u, ∃ k, pk u = Some k ∧
              groups_filter_exists (db w1) k "volunteer" = true ∧
              users (db w1) !! k = Some u) [alice] ∧
    ∀ w2 qs2, deactivate_account never qs1 w1 = (w2, Ok qs2) →
      Forall (λ u, is_superuser u = false →
                ∃ k r, pk u = Some k ∧ users (db w2) !! k = Some r ∧
                  is_active r = false ∧ is_staff r = is_staff u ∧
                  groups_filter_exists (db w2) k "volunteer" = true) [alice].
Proof.
  eexists _, _. split; [run|]. split; [run|].
  apply (add_to_volunteer_then_deactivate never [alice] start); [all_loaded|run].
Defined.

Lemma deactivate_account_frame_witness :
  let w' := (deactivate_account never [alice; root] start).1 in
  auth_group (db w') = auth_group (db start) ∧
  auth_user_groups (db w') = auth_user_groups (db start) ∧
  (∀ k, users (db start) !! k = None → users (db w') !! k = None) ∧
  (∀ k r, users (db start) !! k = Some r →
     ∃ r', users (db w') !! k = Some r' ∧
       pk r' = pk r ∧ email r' = email r ∧ password r' = password r ∧
       is_staff r' = is_staff r ∧ is_superuser r' = is_superuser r ∧
       (is_superuser r = true → r' = r)) ∧
  clock w' ≤ clock start
             + length (filter (λ u, is_superuser u = false) [alice; root]).
Proof.
  apply (deactivate_account_frame never [alice; root] start). all_loaded.
Defined.

Lemma mismatch_is_rejected_witness :
  let form := CustomUserCreationForm.clean_field_password2 mistyped in
  CustomUserCreationForm.clean_password2 mistyped
    = Raise (ValidationError "Passwords do not match.") ∧
  CustomUserCreationForm.is_valid form = false ∧
  CustomUserCreationForm.add_view never hasher mistyped start
    = (start, Ok (form, None)) ∧
  ∀ commit, CustomUserCreationForm.save never hasher form commit start
    = (start, Raise ValueError).
Proof.
  apply (mismatch_is_rejected never hasher mistyped "secret" "secrte" start);
    [run|run|done|done|done].
Defined.

(** C7 fails on the code: a password whose confirmation was left empty
    does not match it, yet [clean_password2] accepts, the form is valid and
    the add view saves the account, under the password given. *)
Lemma mismatch_with_an_empty_field_is_saved :
  dict_get (CustomUserCreationForm.cleaned_data unconfirmed) "password1"
    = PyStr "secret" ∧
  dict_get (CustomUserCreationForm.cleaned_data unconfirmed) "password2"
    = PyStr EmptyString ∧
  CustomUserCreationForm.clean_password2 unconfirmed = Ok (PyStr EmptyString) ∧
  CustomUserCreationForm.is_valid
    (CustomUserCreationForm.clean_field_password2 unconfirmed) = true ∧
  let saved := CustomUserCreationForm.add_view never hasher unconfirmed start in
  users (db start) !! 5 = None ∧
  users (db saved.1) !! 5
    = Some (mkAuthUser (Some 5) "dave@example.org" "plain$secret" true false false).
Proof. cbv zeta. split_and!; run. Qed.

Lemma clean_password2_raises_iff_witness :
  CustomUserCreationForm.clean_password2 unconfirmed
  = Ok (dict_get (CustomUserCreationForm.cleaned_data unconfirmed) "password2").
Proof.
  apply (clean_password2_raises_iff unconfirmed).
  right. right. right. run.
Defined.

(** * Further properties of the forms *)

Lemma next_pk_fresh d : users d !! next_pk d = None.
Proof.
  destruct (users d !! next_pk d) as [r|] eqn:E; [|done].
  apply elem_of_map_to_list in E.
  assert (Hin : next_pk d ∈ (map_to_list (users d)).*1).
  { apply list_elem_of_fmap. by exists (next_pk d, r). }
  apply max_list_elem_of_le in Hin. unfold next_pk in Hin at 1. lia.
Qed.

Section CreationSave.

Variable fault : nat → bool.
Variable make_password : PyVal → string.

Lemma creation_save_run (self : CustomUserCreationForm.Form) commit w :
  CustomUserCreationForm.save fault make_password self commit w =
    if CustomUserCreationForm.is_valid self then
      match CustomUserCreationForm.cleaned_data self !! "password1" with
      | Some raw =>
          let user := set_password_hash (make_password raw)
                        (CustomUserCreationForm.instance self) in
          if commit then Model_save fault user w else (w, Ok user)
      | None => (w, Raise (KeyError "password1"))
      end
    else (w, Raise ValueError).
Proof.
  unfold CustomUserCreationForm.save, CustomUserCreationForm.ModelForm_save,
    CustomUserCreationForm.dict_index, CustomUserCreationForm.set_password.
  rewrite bind_run.
  destruct (CustomUserCreationForm.is_valid self); [|done].
  rewrite ret_run, bind_run.
  destruct (CustomUserCreationForm.cleaned_data self !! "password1"); [|done].
  rewrite ret_run. by destruct commit.
Qed.


(** X2. On a valid form whose instance was never saved, [save] with
    [commit] true, its statement not being refused, inserts the account
    under a primary key that no account had: every row there was is still
    there, unchanged; the new row is the instance with that key and the
    hash of [password1]; the groups and the memberships are untouched. *)
Theorem creation_save_inserts (self : CustomUserCreationForm.Form) raw w :
  CustomUserCreationForm.is_valid self = true →
  CustomUserCreationForm.cleaned_data self !! "password1" = Some raw →
  pk (CustomUserCreationForm.instance self) = None →
  fault (clock w) = false →
  ∃ k user w',
    CustomUserCreationForm.save fault make_password self true w = (w', Ok user) ∧
    user = set_pk k (set_password_hash (make_password raw)
                       (CustomUserCreationForm.instance self)) ∧
    users (db w) !! k = None ∧
    users (db w') !! k = Some user ∧
    (∀ j r, users (db w) !! j = Some r → users (db w') !! j = Some r) ∧
    (∀ j, j ≠ k → users (db w') !! j = users (db w) !! j) ∧
    auth_group (db w') = auth_group (db w) ∧
    auth_user_groups (db w') = auth_user_groups (db w) ∧
    clock w' = S (clock w).
Proof.
  intros Hv Hraw Hpk Hf.
  rewrite creation_save_run, Hv, Hraw. cbv zeta.
  unfold Model_save, save. rewrite execute_Ok_intro by done.
  change (pk (set_password_hash (make_password raw)
                (CustomUserCreationForm.instance self)))
    with (pk (CustomUserCreationForm.instance self)).
  rewrite Hpk. cbn [default from_option fst snd].
  eexists (next_pk (db w)), _, _. split; [reflexivity|].
  pose proof (next_pk_fresh (db w)) as Hfresh.
  cbn [db users auth_group auth_user_groups clock].
  split_and!; try done.
  - apply lookup_insert_eq.
  - intros j r Hj. rewrite lookup_insert_ne; [done|]. congruence.
  - intros j Hne. by rewrite lookup_insert_ne.
Qed.



End CreationSave.

(** * Further properties of the display columns *)


Lemma Forall2_transfer {A B : Type} (R : A → B → Prop) (P : A → Prop)
    (Q : B → Prop) (l : list A) (l' : list B) :
  (∀ x y, R x y → P x → Q y) → Forall2 R l l' → Forall P l → Forall Q l'.
Proof.
  intros H. induction 1 as [|x y l l' Hxy _ IH]; [constructor|].
  intros [Hx Hl]%Forall_cons. constructor; eauto.
Qed.


Lemma is_core_belongs d u k :
  pk u = Some k →
  (is_core d u = Ok true ↔ belongs d k "core") ∧
  (is_core d u = Ok false ↔ ¬ belongs d k "core").
Proof.
  intros Hk. unfold is_core. rewrite Hk.
  pose proof (groups_filter_exists_belongs d k "core") as Hiff.
  destruct (groups_filter_exists d k "core"); split; split; try done.
  - intros _. by apply Hiff.
  - intros Hn. exfalso. by apply Hn, Hiff.
  - intros Hb. apply Hiff in Hb. done.
  - intros _ Hb. by apply Hiff in Hb.
Qed.


(** * Further properties of the actions *)

(** ** Runs, whatever their outcome *)

Lemma bind_db_keeps {A B : Type} (J : DB → Prop) (m : M A) (f : A → M B) w :
  J (db (m w).1) →
  (∀ a w1, m w = (w1, Ok a) → J (db w1) → J (db (f a w1).1)) →
  J (db ((m ≫= f) w).1).
Proof.
  intros Hm Hf. rewrite bind_run.
  destruct (m w) as [w1 [a|e]] eqn:E; [|done]. by apply Hf.
Qed.

Lemma extends_refl d : extends d d.
Proof. split_and!; auto. Qed.

Lemma extends_grows d d' : extends d d' → grows d d'.
Proof.
  intros (Hg & Hm & _). split.
  - destruct Hg as [->|(g & _ & _ & ->)]; [done|].
    intros x Hx. apply elem_of_app. auto.
  - destruct Hm as [->|(m & _ & ->)]; [done|].
    intros x Hx. apply elem_of_app. auto.
Qed.

Lemma extends_db_wf d d' : extends d d' → db_wf d → db_wf d'.
Proof.
  intros (Hg & Hm & _) (Hnames & Hids & Hpairs). split_and!.
  - destruct Hg as [Hg|(g & Hnone & _ & Hg)].
    + by eapply unique_names_same_groups.
    + intros nm. rewrite Hg, filter_app, length_app.
      destruct (decide (name g = nm)) as [<-|Hne].
      * rewrite Hnone. cbn [length]. apply length_filter.
      * rewrite filter_cons_False by done. rewrite filter_nil. cbn.
        specialize (Hnames nm). lia.
  - destruct Hg as [->|(g & _ & Hfresh & ->)]; [done|].
    rewrite fmap_app. apply NoDup_app. split_and!; [done| |apply NoDup_singleton].
    intros x Hx ->%list_elem_of_singleton. done.
  - destruct Hm as [->|(m & Hnew & ->)]; [done|].
    apply NoDup_app. split_and!; [done| |apply NoDup_singleton].
    intros x Hx ->%list_elem_of_singleton. done.
Qed.

Section AnyOutcome.

Variable fault : nat → bool.

Lemma execute_db_keeps {A : Type} (J : DB → Prop) (q : DB → DB * A) w :
  J (db w) → J (q (db w)).1 → J (db (execute fault q w).1).
Proof.
  intros Hw Hq. by destruct (execute_world fault q w) as [_ [->| ->]].
Qed.

(** A save writes one row and nothing else. *)
Lemma save_extends d0 u w :
  extends d0 (db w) → extends d0 (db (Model_save fault u w).1).
Proof.
  intros Hw. unfold Model_save, save.
  apply execute_db_keeps; [done|]. cbn [fst].
  destruct Hw as (Hg & Hm & Hk). split_and!; [done|done|].
  intros k Hsome. cbn [users].
  destruct (decide (default (next_pk (db w)) (pk u) = k)) as [->|Hne].
  - rewrite lookup_insert_eq. by eexists.
  - rewrite lookup_insert_ne by done. auto.
Qed.

Lemma max_list_fresh (ns : list nat) : S (max_list ns) ∉ ns.
Proof. intros Hin%max_list_elem_of_le. lia. Qed.

Lemma execute_cases {A : Type} (q : DB → DB * A) w :
  execute fault q w = (tick w, Raise DatabaseError) ∨
  execute fault q w = (mkWorld (q (db w)).1 (S (clock w)), Ok (q (db w)).2).
Proof.
  unfold execute, tick. destruct (fault (clock w)); [by left|].
  right. by destruct (q (db w)).
Qed.

(** The outcomes of [Group.objects.get]: refused; none found; one found;
    several found. *)
Lemma objects_get_cases nm w :
  objects_get fault nm w = (tick w, Raise DatabaseError) ∨
  (objects_get fault nm w = (tick w, Ok None) ∧
   filter (λ g, name g = nm) (auth_group (db w)) = []) ∨
  (∃ g, objects_get fault nm w = (tick w, Ok (Some g)) ∧
        filter (λ g, name g = nm) (auth_group (db w)) = [g]) ∨
  (objects_get fault nm w = (tick w, Raise MultipleObjectsReturned) ∧
   2 ≤ length (filter (λ g, name g = nm) (auth_group (db w)))).
Proof.
  unfold objects_get. rewrite bind_run.
  destruct (execute_cases
    (λ d, (d, filter (λ g, name g = nm) (auth_group d))) w) as [->| ->];
    [by left|]. cbn [fst snd]. fold (tick w).
  destruct (filter (λ g, name g = nm) (auth_group (db w))) as [|g [|g' rows]].
  - right. left. done.
  - right. right. left. by exists g.
  - right. right. right. split; [done|]. cbn. lia.
Qed.

(** What [get_or_create] does to the tables, whatever its outcome. *)
Lemma get_or_create_any nm w :
  let d' := db (get_or_create fault nm w).1 in
  users d' = users (db w) ∧
  auth_user_groups d' = auth_user_groups (db w) ∧
  (auth_group d' = auth_group (db w) ∨
   ∃ g, name g = nm ∧
        filter (λ h, name h = nm) (auth_group (db w)) = [] ∧
        (gid g ∉ gid <$> auth_group (db w)) ∧
        auth_group d' = auth_group (db w) ++ [g]).
Proof.
  unfold get_or_create. rewrite bind_run.
  destruct (objects_get_cases nm w)
    as [->|[[-> Hnone]|[(g & -> & Hone)|[-> _]]]]; cbn; auto.
  rewrite bind_run. unfold objects_create.
  match goal with |- context [execute fault ?q (tick w)] =>
    destruct (execute_cases q (tick w)) as [->| ->] end; cbn; [by auto|].
  split_and!; [done|done|]. right. eexists. split_and!; [| | |reflexivity].
  - done.
  - done.
  - apply max_list_fresh.
Qed.

(** What [groups.add] does to the tables, whatever its outcome. *)
Lemma groups_add_any u g w :
  let d' := db (groups_add fault u g w).1 in
  users d' = users (db w) ∧
  auth_group d' = auth_group (db w) ∧
  (auth_user_groups d' = auth_user_groups (db w) ∨
   ∃ k, pk u = Some k ∧ ((k, gid g) ∉ auth_user_groups (db w)) ∧
        auth_user_groups d' = auth_user_groups (db w) ++ [(k, gid g)]).
Proof.
  unfold groups_add, groups_manager. rewrite bind_run.
  destruct (pk u) as [k|]; [|by auto]. rewrite ret_run.
  unfold execute. destruct (fault (clock w)); [by auto|].
  case_decide; cbn; [by auto|]. split_and!; [done|done|]. right. by exists k.
Qed.

(** What [groups.clear] does to the tables, whatever its outcome. *)
Lemma groups_clear_any u w :
  let d' := db (groups_clear fault u w).1 in
  users d' = users (db w) ∧
  auth_group d' = auth_group (db w) ∧
  (auth_user_groups d' = auth_user_groups (db w) ∨
   ∃ k, pk u = Some k ∧
        auth_user_groups d' = filter (λ m, m.1 ≠ k) (auth_user_groups (db w))).
Proof.
  unfold groups_clear, groups_manager. rewrite bind_run.
  destruct (pk u) as [k|]; [|by auto]. rewrite ret_run.
  unfold execute. destruct (fault (clock w)); [by auto|].
  cbn. split_and!; [done|done|]. right. by exists k.
Qed.

(** What a save does to the tables, whatever its outcome. *)
Lemma save_any u w :
  let d' := db (Model_save fault u w).1 in
  auth_group d' = auth_group (db w) ∧
  auth_user_groups d' = auth_user_groups (db w) ∧
  (users d' = users (db w) ∨
   users d' = <[default (next_pk (db w)) (pk u)
                := set_pk (default (next_pk (db w)) (pk u)) u]> (users (db w))).
Proof.
  unfold Model_save, save, execute.
  destruct (fault (clock w)); cbn; auto.
Qed.

(** [add_to_group], from the tables themselves, extends them. *)
Lemma add_to_group_extends u nm w :
  extends (db w) (db (add_to_group fault u nm w).1).
Proof.
  unfold add_to_group. rewrite bind_run.
  pose proof (get_or_create_any nm w) as Hgoc. cbv zeta in Hgoc.
  destruct (get_or_create fault nm w) as [w1 [[g created]|e]];
    cbn [fst] in Hgoc; destruct Hgoc as (Hu & Hm & Hg).
  - pose proof (groups_add_any u g w1) as Hadd. cbv zeta in Hadd.
    destruct Hadd as (Hu' & Hg' & Hm').
    split_and!.
    + rewrite Hg'. destruct Hg as [Hg|(h & Hh & Hnone & Hfresh & Hg)];
        [by left|].
      right. exists h. by rewrite Hh.
    + destruct Hm' as [Hm'|(k & _ & Hnew & Hm')]; rewrite Hm', Hm; [by left|].
      right. exists (k, gid g). by rewrite <- Hm.
    + intros k. by rewrite Hu', Hu.
  - cbn [fst]. split_and!.
    + destruct Hg as [Hg|(h & Hh & Hnone & Hfresh & Hg)]; [by left|].
      right. exists h. by rewrite Hh.
    + by left.
    + intros k. by rewrite Hu.
Qed.

Lemma extends_trans d1 d2 d3 :
  grows d1 d2 → (∀ k, is_Some (users d1 !! k) → is_Some (users d2 !! k)) →
  extends d2 d3 →
  grows d1 d3 ∧ (∀ k, is_Some (users d1 !! k) → is_Some (users d3 !! k)).
Proof.
  intros Hg Hk Hext. split.
  - eapply grows_trans; [done|]. by apply extends_grows.
  - intros k Hsome. destruct Hext as (_ & _ & Hk'). auto.
Qed.

Lemma db_wf_same_tables d d' :
  auth_group d' = auth_group d → auth_user_groups d' = auth_user_groups d →
  db_wf d → db_wf d'.
Proof.
  intros Hg Hm (Hn & Hi & Hp). split_and!.
  - by eapply unique_names_same_groups.
  - by rewrite Hg.
  - by rewrite Hm.
Qed.

Lemma save_db_wf u w : db_wf (db w) → db_wf (db (Model_save fault u w).1).
Proof.
  intros Hw. destruct (save_any u w) as (Hg & Hm & _).
  by eapply db_wf_same_tables.
Qed.

Lemma add_to_group_db_wf u nm w :
  db_wf (db w) → db_wf (db (add_to_group fault u nm w).1).
Proof. apply extends_db_wf, add_to_group_extends. Qed.

Lemma groups_clear_db_wf u w :
  db_wf (db w) → db_wf (db (groups_clear fault u w).1).
Proof.
  intros (Hn & Hi & Hp). destruct (groups_clear_any u w) as (_ & Hg & Hm).
  split_and!.
  - by eapply unique_names_same_groups.
  - by rewrite Hg.
  - destruct Hm as [->|(k & _ & ->)]; [done|]. by apply NoDup_filter.
Qed.

(** The bodies of all the loops keep the uniqueness constraints. *)
Lemma bodies_db_wf u w :
  db_wf (db w) →
  db_wf (db (clear_body fault u w).1) ∧
  db_wf (db (admin_body fault u w).1) ∧
  (∀ nm, db_wf (db (staff_group_body fault nm u w).1)) ∧
  (∀ nm, db_wf (db (group_only_body fault nm u w).1)) ∧
  db_wf (db (deactivate_body fault u w).1).
Proof.
  intros Hw. unfold clear_body, admin_body, staff_group_body, group_only_body.
  split_and!.
  - apply (bind_db_keeps db_wf); [by apply groups_clear_db_wf|].
    intros _ w1 _ Hw1. by apply save_db_wf.
  - apply (bind_db_keeps db_wf); [by apply add_to_group_db_wf|].
    intros _ w1 _ Hw1. by apply save_db_wf.
  - intros nm. apply (bind_db_keeps db_wf); [by apply add_to_group_db_wf|].
    intros _ w1 _ Hw1. by apply save_db_wf.
  - intros nm. apply (bind_db_keeps db_wf); [by apply add_to_group_db_wf|].
    by intros _ w1 _ Hw1.
  - unfold deactivate_body. destruct (negb (is_superuser u)); [|done].
    by apply save_db_wf.
Qed.

Lemma kept_refl d : kept d d.
Proof. split; [apply grows_refl|done]. Qed.

Lemma kept_extends d0 d d' : kept d0 d → extends d d' → kept d0 d'.
Proof. intros [Hg Hk] Hext. by apply (extends_trans d0 d d'). Qed.

Lemma save_kept d0 u w : kept d0 (db w) → kept d0 (db (Model_save fault u w).1).
Proof.
  intros [[Hg Hm] Hk]. destruct (save_any u w) as (Hg' & Hm' & Hu).
  split; [split|].
  - by rewrite Hg'.
  - by rewrite Hm'.
  - intros k Hsome. apply Hk in Hsome. destruct Hu as [->| ->]; [done|].
    destruct (decide (default (next_pk (db w)) (pk u) = k)) as [->|Hne].
    + rewrite lookup_insert_eq. by eexists.
    + by rewrite lookup_insert_ne.
Qed.

Lemma add_to_group_kept d0 u nm w :
  kept d0 (db w) → kept d0 (db (add_to_group fault u nm w).1).
Proof. intros Hw. eapply kept_extends; [done|]. apply add_to_group_extends. Qed.

Lemma promotion_bodies_kept d0 u w :
  kept d0 (db w) →
  kept d0 (db (admin_body fault u w).1) ∧
  (∀ nm, kept d0 (db (staff_group_body fault nm u w).1)) ∧
  (∀ nm, kept d0 (db (group_only_body fault nm u w).1)).
Proof.
  intros Hw. unfold admin_body, staff_group_body, group_only_body. split_and!.
  - apply (bind_db_keeps (kept d0)); [by apply add_to_group_kept|].
    intros _ w1 _ Hw1. by apply save_kept.
  - intros nm. apply (bind_db_keeps (kept d0)); [by apply add_to_group_kept|].
    intros _ w1 _ Hw1. by apply save_kept.
  - intros nm. apply (bind_db_keeps (kept d0)); [by apply add_to_group_kept|].
    by intros _ w1 _ Hw1.
Qed.

End AnyOutcome.

(** ** What the actions keep *)

Lemma actions_as_loops fault :
  clear_groups fault = for_each (clear_body fault) ∧
  add_to_admin fault = for_each (admin_body fault) ∧
  add_to_core fault = for_each (staff_group_body fault "core") ∧
  add_to_pickleader fault = for_each (staff_group_body fault "pickleader") ∧
  add_to_volunteer fault = for_each (group_only_body fault "volunteer") ∧
  add_to_owner fault = for_each (group_only_body fault "owner") ∧
  deactivate_account fault = for_each (deactivate_body fault).
Proof. by split_and!. Qed.

(** X6. Every action keeps the uniqueness constraints of the schema,
    whatever its outcome: on tables where no two groups share a name or an
    id and no pair of the relation is doubled, the tables it leaves are
    such again. *)
Theorem bulk_actions_keep_constraints fault action qs w :
  action ∈ actions fault →
  db_wf (db w) →
  db_wf (db (action qs w).1).
Proof.
  destruct (actions_as_loops fault) as (E1 & E2 & E3 & E4 & E5 & E6 & E7).
  unfold actions. rewrite !elem_of_cons, elem_of_nil.
  intros [->|[->|[->|[->|[->|[->|[->|[]]]]]]]] Hw;
    rewrite ?E1, ?E2, ?E3, ?E4, ?E5, ?E6, ?E7;
    apply (for_each_preserves _ (λ _, True) (λ w, db_wf (db w)));
    try done; try (by apply Forall_true);
    intros u w0 _ Hw0;
    destruct (bodies_db_wf fault u w0 Hw0) as (? & ? & ? & ? & ?); auto.
Qed.

(** X7. No promotion removes anything, whatever its outcome: every
    group, every membership and every account there was is still there
    after [add_to_admin], [add_to_core], [add_to_pickleader],
    [add_to_volunteer] and [add_to_owner]. *)
Theorem promotions_never_remove fault action qs w :
  action ∈ [add_to_admin fault; add_to_core fault; add_to_pickleader fault;
            add_to_volunteer fault; add_to_owner fault] →
  let d' := db (action qs w).1 in
  auth_group (db w) ⊆ auth_group d' ∧
  auth_user_groups (db w) ⊆ auth_user_groups d' ∧
  ∀ k, is_Some (users (db w) !! k) → is_Some (users d' !! k).
Proof.
  destruct (actions_as_loops fault) as (_ & E2 & E3 & E4 & E5 & E6 & _).
  rewrite !elem_of_cons, elem_of_nil.
  intros Hin d'.
  assert (Hkept : kept (db w) d').
  { unfold d'.
    destruct Hin as [->|[->|[->|[->|[->|[]]]]]];
      rewrite ?E2, ?E3, ?E4, ?E5, ?E6;
      apply (for_each_preserves _ (λ _, True) (λ w1, kept (db w) (db w1)));
      try (by apply Forall_true); try apply kept_refl;
      intros u w0 _ Hw0;
      destruct (promotion_bodies_kept fault (db w) u w0 Hw0) as (? & ? & ?); auto. }
  destruct Hkept as [[? ?] ?]. done.
Qed.

(** X8. Whatever its outcome, [clear_groups] deletes no group and adds
    no membership; the memberships of the accounts that were not selected
    are all kept, and so are the rows of those accounts. *)
Theorem clear_groups_frame fault qs w :
  let d' := db (clear_groups fault qs w).1 in
  auth_group d' = auth_group (db w) ∧
  (∀ m, m ∈ auth_user_groups d' → m ∈ auth_user_groups (db w)) ∧
  (∀ m, m ∈ auth_user_groups (db w) → ¬ selected qs m.1 →
        m ∈ auth_user_groups d') ∧
  (∀ k, ¬ selected qs k → users d' !! k = users (db w) !! k).
Proof.
  intros d'. unfold d'.
  destruct (actions_as_loops fault) as (-> & _).
  apply (for_each_preserves _ (λ u, u ∈ qs)
    (λ w1, auth_group (db w1) = auth_group (db w) ∧
           (∀ m, m ∈ auth_user_groups (db w1) → m ∈ auth_user_groups (db w)) ∧
           (∀ m, m ∈ auth_user_groups (db w) → ¬ selected qs m.1 →
                 m ∈ auth_user_groups (db w1)) ∧
           (∀ k, ¬ selected qs k → users (db w1) !! k = users (db w) !! k)));
    [|by apply Forall_forall|by auto].
  intros u w0 Hu (Hg & Hsub & Hkeep & Hrows). unfold clear_body.
  apply (bind_db_keeps (λ d,
    auth_group d = auth_group (db w) ∧
    (∀ m, m ∈ auth_user_groups d → m ∈ auth_user_groups (db w)) ∧
    (∀ m, m ∈ auth_user_groups (db w) → ¬ selected qs m.1 →
          m ∈ auth_user_groups d) ∧
    (∀ k, ¬ selected qs k → users d !! k = users (db w) !! k))).
  - destruct (groups_clear_any fault u w0) as (Hu' & Hg' & Hm').
    rewrite Hg', Hu'. split_and!; [done| | |done].
    + intros m. destruct Hm' as [->|(k & _ & ->)]; [by auto|].
      intros [_ Hm]%list_elem_of_filter. auto.
    + intros m Hm Hns. destruct Hm' as [->|(k & Hk & ->)]; [by auto|].
      apply list_elem_of_filter. split; [|by auto].
      intros <-. apply Hns. by exists u.
  - intros [] w1 Hclear (Hg1 & Hsub1 & Hkeep1 & Hrows1).
    apply groups_clear_Ok_inv in Hclear as (k & Hk & _).
    cbv zeta.
    destruct (save_any fault (set_is_staff false (set_is_superuser false u)) w1)
      as (Hg' & Hm' & Hu').
    rewrite Hg', Hm'. split_and!; [done|done|done|].
    intros j Hnj. destruct Hu' as [->| ->]; [by auto|].
    change (pk (set_is_staff false (set_is_superuser false u))) with (pk u).
    rewrite Hk. cbn [default from_option]. unfold id.
    rewrite lookup_insert_ne; [by auto|].
    intros <-. apply Hnj. by exists u.
Qed.

(** ** What the actions cost *)






Section Costs.

Variable fault : nat → bool.










End Costs.

(** ** Promotions to a group, with and without the staff flag *)

Section Promotions.

Variable fault : nat → bool.
Variable nm : string.

Lemma staff_group_body_Ok_inv d0 u w w1 u' :
  loaded d0 u →
  staff_group_body fault nm u w = (w1, Ok u') →
  ∃ k, pk u = Some k ∧ u' = set_is_staff true u ∧
    users (db w1) = <[k := set_is_staff true u]> (users (db w)) ∧
    belongs (db w1) k nm ∧ grows (db w) (db w1).
Proof.
  intros (k & Hk & _) H. unfold staff_group_body in H.
  apply bind_Ok_inv in H as (wa & [] & Hg & Hs).
  destruct (add_to_group_belongs _ _ _ _ _ Hg) as (k' & Hk' & Hbel).
  assert (k' = k) as -> by congruence.
  pose proof (add_to_group_grows _ _ _ _ _ Hg) as Hgrows.
  apply add_to_group_Ok_inv in Hg as (k' & g & _ & Husers & _).
  destruct (add_to_staff_Ok_inv _ _ _ _ _ _ Hk Hs) as (-> & _ & Hdb).
  exists k. rewrite Hdb. cbn [users]. rewrite Husers.
  split_and!; [done|done|done| |].
  - unfold belongs in *. done.
  - unfold grows in *. done.
Qed.

Lemma staff_group_loop qs w w' qs' :
  Forall (loaded (db w)) qs →
  for_each (staff_group_body fault nm) qs w = (w', Ok qs') →
  qs' = set_is_staff true <$> qs ∧
  Forall (λ u, ∃ k, pk u = Some k ∧
            users (db w') !! k = Some (set_is_staff true u) ∧
            belongs (db w') k nm) qs ∧
  (∀ k, ¬ selected qs k → users (db w') !! k = users (db w) !! k).
Proof.
  intros Hqs Hrun.
  assert (Hpre : Forall (λ u, loaded (db w) u ∧ u ∈ qs) qs).
  { apply Forall_forall. intros u Hu. split; [|done].
    by eapply Forall_forall in Hqs. }
  split_and!.
  - eapply for_each_relates with
      (Pre := loaded (db w)) (Inv := λ _, True)
      (R := λ u u', u' = set_is_staff true u) in Hrun; [| |done|done].
    + clear -Hrun. induction Hrun; [done|]. cbn. by f_equal.
    + intros u w0 w1 u' Hu _ Hbody.
      by apply (staff_group_body_Ok_inv (db w)) in Hbody as (k & _ & -> & _).
  - eapply for_each_establishes with
      (Pre := λ u, loaded (db w) u ∧ u ∈ qs) (Inv := λ _, True)
      (Post := λ w1 u, ∃ k, pk u = Some k ∧
                 users (db w1) !! k = Some (set_is_staff true u) ∧
                 belongs (db w1) k nm)
      in Hrun as (_ & ? & _); [done| |done|done].
    intros u w0 w1 u' [Hu _] _ Hbody.
    apply (staff_group_body_Ok_inv (db w)) in Hbody
      as (k & Hk & _ & Husers & Hbel & Hgrows); [|done].
    split_and!; [done| |].
    + exists k. rewrite Husers. split_and!; [done| |done]. apply lookup_insert_eq.
    + intros v [Hv _] (j & Hj & Hrow & Hb). exists j. rewrite Husers.
      split_and!; [done| |by eapply belongs_grows].
      destruct (decide (k = j)) as [->|Hne].
      * assert (u = v) as -> by (eapply loaded_inj; eauto).
        apply lookup_insert_eq.
      * by rewrite lookup_insert_ne.
  - eapply for_each_establishes with
      (Pre := λ u, loaded (db w) u ∧ u ∈ qs)
      (Inv := λ w1, ∀ k, ¬ selected qs k → users (db w1) !! k = users (db w) !! k)
      (Post := λ _ _, True) in Hrun as (? & _); [done| |done|done].
    intros u w0 w1 u' [Hu Hin] Hw0 Hbody.
    apply (staff_group_body_Ok_inv (db w)) in Hbody
      as (k & Hk & _ & Husers & _); [|done].
    split_and!; [|done|done].
    intros j Hnj. rewrite Husers, lookup_insert_ne; [by auto|].
    intros <-. apply Hnj. by exists u.
Qed.

Lemma group_only_body_Ok_inv u w w1 u' :
  group_only_body fault nm u w = (w1, Ok u') →
  u' = u ∧ users (db w1) = users (db w) ∧ grows (db w) (db w1) ∧
  ∃ k, pk u = Some k ∧ belongs (db w1) k nm.
Proof.
  intros H. unfold group_only_body in H.
  apply bind_Ok_inv in H as (wa & [] & Hg & Hr).
  injection Hr as <- <-.
  split_and!; [done| |by eapply add_to_group_grows|by eapply add_to_group_belongs].
  by apply add_to_group_Ok_inv in Hg as (k & g & _ & ? & _).
Qed.

Lemma group_only_loop qs w w' qs' :
  for_each (group_only_body fault nm) qs w = (w', Ok qs') →
  qs' = qs ∧ users (db w') = users (db w) ∧
  Forall (λ u, ∃ k, pk u = Some k ∧ belongs (db w') k nm) qs.
Proof.
  intros Hrun. split_and!.
  - eapply for_each_objects with (R := λ u u', u' = u) in Hrun.
    + clear -Hrun. induction Hrun; [done|]. by f_equal.
    + intros u w0 w1 u' Hbody. by apply group_only_body_Ok_inv in Hbody as (? & _).
  - eapply for_each_establishes with
      (Pre := λ _, True) (Inv := λ w1, users (db w1) = users (db w))
      (Post := λ _ _, True) in Hrun as (? & _); [done| |by apply Forall_true|done].
    intros u w0 w1 u' _ Hw0 Hbody.
    apply group_only_body_Ok_inv in Hbody as (_ & -> & _). auto.
  - eapply for_each_establishes with
      (Pre := λ _, True) (Inv := λ _, True)
      (Post := λ w1 u, ∃ k, pk u = Some k ∧ belongs (db w1) k nm)
      in Hrun as (_ & ? & _); [done| |by apply Forall_true|done].
    intros u w0 w1 u' _ _ Hbody.
    apply group_only_body_Ok_inv in Hbody as (_ & _ & Hgrows & Hu).
    split_and!; [done|done|].
    intros v _ (k & ? & ?). exists k. eauto using belongs_grows.
Qed.

End Promotions.

(** X10. On a queryset evaluated on the database, [add_to_core] reaches
    the end when no statement is refused (the names of the groups being
    unique); and whenever it reaches the end, the objects it hands back
    are the selected ones with [is_staff] set and nothing else changed,
    each of them is the row of its account, the column [is_core] shows
    true for it, and the rows of the accounts that were not selected are
    what they were. *)
Theorem add_to_core_sets_staff fault qs w :
  Forall (loaded (db w)) qs →
  (quiet fault w → unique_names (db w) →
   ∃ w' qs', add_to_core fault qs w = (w', Ok qs')) ∧
  ∀ w' qs', add_to_core fault qs w = (w', Ok qs') →
    qs' = set_is_staff true <$> qs ∧
    Forall (λ u', loaded (db w') u' ∧ is_staff u' = true ∧
                  is_core (db w') u' = Ok true) qs' ∧
    (∀ k, ¬ selected qs k → users (db w') !! k = users (db w) !! k).
Proof.
  intros Hqs. split.
  { intros Hq Huniq.
    destruct (bulk_action_completes fault (add_to_core fault) qs w)
      as (w' & qs' & Hrun & _); [|done|done|by eapply loaded_has_pk|by eauto].
    unfold actions. do 2 apply list_elem_of_further. apply list_elem_of_here. }
  intros w' qs' Hrun.
  destruct (actions_as_loops fault) as (_ & _ & E & _). rewrite E in Hrun.
  destruct (staff_group_loop fault "core" qs w w' qs' Hqs Hrun)
    as (-> & Hpost & Hrest).
  split_and!; [done| |done].
  apply Forall_fmap. eapply Forall_impl; [exact Hpost|].
  intros u (k & Hk & Hrow & Hbel). cbn. split_and!; [by exists k|done|].
  by apply (is_core_belongs (db w') (set_is_staff true u) k).
Qed.

(** X11. On a queryset evaluated on the database, [add_to_pickleader]
    reaches the end when no statement is refused (the names of the groups
    being unique); and whenever it reaches the end, every selected account
    is joined to a group named "pickleader", its row is the object with
    [is_staff] set and nothing else changed, which is what the action
    hands back, and the rows of the accounts that were not selected are
    what they were. *)
Theorem add_to_pickleader_sets_staff fault qs w :
  Forall (loaded (db w)) qs →
  (quiet fault w → unique_names (db w) →
   ∃ w' qs', add_to_pickleader fault qs w = (w', Ok qs')) ∧
  ∀ w' qs', add_to_pickleader fault qs w = (w', Ok qs') →
    qs' = set_is_staff true <$> qs ∧
    Forall (λ u, ∃ k, pk u = Some k ∧
              users (db w') !! k = Some (set_is_staff true u) ∧
              groups_filter_exists (db w') k "pickleader" = true) qs ∧
    (∀ k, ¬ selected qs k → users (db w') !! k = users (db w) !! k).
Proof.
  intros Hqs. split.
  { intros Hq Huniq.
    destruct (bulk_action_completes fault (add_to_pickleader fault) qs w)
      as (w' & qs' & Hrun & _); [|done|done|by eapply loaded_has_pk|by eauto].
    unfold actions. do 3 apply list_elem_of_further. apply list_elem_of_here. }
  intros w' qs' Hrun.
  destruct (actions_as_loops fault) as (_ & _ & _ & E & _). rewrite E in Hrun.
  destruct (staff_group_loop fault "pickleader" qs w w' qs' Hqs Hrun)
    as (-> & Hpost & Hrest).
  split_and!; [done| |done].
  eapply Forall_impl; [exact Hpost|].
  intros u (k & Hk & Hrow & Hbel). exists k. split_and!; [done|done|].
  by apply groups_filter_exists_belongs.
Qed.

(** X12. [add_to_owner] reaches the end when no statement is refused
    (the names of the groups being unique and the objects having primary
    keys); and whenever it reaches the end, every selected account is
    joined to a group named "owner", and that is all: the table of
    accounts is what it was, so no flag has moved ([is_staff] is not set,
    unlike for a pick leader), and the objects come back as they were. *)
Theorem add_to_owner_joins_only fault qs w :
  (quiet fault w → unique_names (db w) → Forall (λ u, is_Some (pk u)) qs →
   ∃ w' qs', add_to_owner fault qs w = (w', Ok qs')) ∧
  ∀ w' qs', add_to_owner fault qs w = (w', Ok qs') →
    qs' = qs ∧
    users (db w') = users (db w) ∧
    Forall (λ u, ∃ k, pk u = Some k ∧
              groups_filter_exists (db w') k "owner" = true) qs.
Proof.
  split.
  { intros Hq Huniq Hqs.
    destruct (bulk_action_completes fault (add_to_owner fault) qs w)
      as (w' & qs' & Hrun & _); [|done|done|done|by eauto].
    unfold actions. do 5 apply list_elem_of_further. apply list_elem_of_here. }
  intros w' qs' Hrun.
  destruct (actions_as_loops fault) as (_ & _ & _ & _ & _ & E & _).
  rewrite E in Hrun.
  destruct (group_only_loop fault "owner" qs w w' qs' Hrun) as (-> & Husers & Hpost).
  split_and!; [done|done|].
  eapply Forall_impl; [exact Hpost|].
  intros u (k & Hk & Hbel). exists k. split; [done|].
  by apply groups_filter_exists_belongs.
Qed.

(** ** What a promotion can add *)

Lemma NoDup_fmap_eq {A B : Type} (f : A → B) (l : list A) x y :
  NoDup (f <$> l) → x ∈ l → y ∈ l → f x = f y → x = y.
Proof.
  induction l as [|a l IH]; cbn; [by intros _ ?%elem_of_nil|].
  intros [Ha Hl]%NoDup_cons [->|Hx]%elem_of_cons [->|Hy]%elem_of_cons Hxy.
  - done.
  - exfalso. apply Ha. rewrite Hxy. by apply list_elem_of_fmap_2.
  - exfalso. apply Ha. rewrite <- Hxy. by apply list_elem_of_fmap_2.
  - by apply IH.
Qed.

Lemma gains_only_refl nm qs d :
  NoDup (gid <$> auth_group d) → db_fk d → gains_only nm qs d d.
Proof. intros Hnd Hfk. split_and!; auto. Qed.

Lemma gains_only_same_tables nm qs d0 d d' :
  auth_group d' = auth_group d → auth_user_groups d' = auth_user_groups d →
  gains_only nm qs d0 d → gains_only nm qs d0 d'.
Proof.
  intros Hg Hm (Hnd & Hfk & Hb). unfold gains_only, db_fk, belongs in *.
  rewrite Hg, Hm. done.
Qed.

Section Gains.

Variable fault : nat → bool.
Variable nm : string.
Variable qs : list AuthUser.
Variable d0 : DB.

Lemma get_or_create_gains w :
  gains_only nm qs d0 (db w) →
  gains_only nm qs d0 (db (get_or_create fault nm w).1).
Proof.
  intros Hw. destruct (get_or_create_any fault nm w) as (_ & Hm & Hg).
  destruct Hg as [Hg|(g & Hname & Hnone & Hfresh & Hg)].
  { by eapply gains_only_same_tables. }
  destruct Hw as (Hnd & Hfk & Hb). unfold gains_only, db_fk, belongs.
  rewrite Hg, Hm, fmap_app. split_and!.
  - apply NoDup_app. split_and!; [done| |apply NoDup_singleton].
    intros i Hi ->%list_elem_of_singleton. done.
  - intros m Hin. apply elem_of_app. left. by apply Hfk.
  - intros j nm' (h & [Hh| ->%list_elem_of_singleton]%elem_of_app & Hnm & Hin).
    + apply Hb. by exists h.
    + exfalso. apply Hfresh. by apply (Hfk (j, gid g)).
Qed.

Lemma groups_add_gains u g w :
  u ∈ qs → g ∈ auth_group (db w) → name g = nm →
  gains_only nm qs d0 (db w) →
  gains_only nm qs d0 (db (groups_add fault u g w).1).
Proof.
  intros Hu Hg Hname Hw.
  destruct (groups_add_any fault u g w) as (_ & Hgr & Hm).
  destruct Hm as [Hm|(k & Hk & _ & Hm)].
  { by eapply gains_only_same_tables. }
  destruct Hw as (Hnd & Hfk & Hb). unfold gains_only, db_fk, belongs.
  rewrite Hgr, Hm. split_and!; [done| |].
  - intros m [Hin| ->%list_elem_of_singleton]%elem_of_app; [by apply Hfk|].
    cbn. by apply list_elem_of_fmap_2.
  - intros j nm' (h & Hh & Hnm & [Hin|Heq%list_elem_of_singleton]%elem_of_app).
    + apply Hb. by exists h.
    + injection Heq as -> Hid. right.
      assert (h = g) as -> by (by eapply (NoDup_fmap_eq gid)).
      split; [congruence|]. by exists u.
Qed.

Lemma add_to_group_gains u w :
  u ∈ qs → gains_only nm qs d0 (db w) →
  gains_only nm qs d0 (db (add_to_group fault u nm w).1).
Proof.
  intros Hu Hw. unfold add_to_group.
  apply (bind_db_keeps (gains_only nm qs d0)); [by apply get_or_create_gains|].
  intros [g created] w1 Hrun Hw1.
  apply get_or_create_Ok_inv in Hrun as (_ & _ & Hf & _).
  assert (Hg : g ∈ filter (λ g, name g = nm) (auth_group (db w1))).
  { rewrite Hf. apply list_elem_of_here. }
  apply list_elem_of_filter in Hg as [Hname Hg].
  by apply groups_add_gains.
Qed.

Lemma save_gains u w :
  gains_only nm qs d0 (db w) →
  gains_only nm qs d0 (db (Model_save fault u w).1).
Proof.
  intros Hw. destruct (save_any fault u w) as (Hg & Hm & _).
  by eapply gains_only_same_tables.
Qed.

Lemma promotion_bodies_gain u w :
  u ∈ qs → gains_only nm qs d0 (db w) →
  (nm = "admin" → gains_only nm qs d0 (db (admin_body fault u w).1)) ∧
  gains_only nm qs d0 (db (staff_group_body fault nm u w).1) ∧
  gains_only nm qs d0 (db (group_only_body fault nm u w).1).
Proof.
  intros Hu Hw. unfold admin_body, staff_group_body, group_only_body.
  split_and!.
  - intros Hnm. rewrite <- Hnm.
    apply (bind_db_keeps (gains_only nm qs d0)); [by apply add_to_group_gains|].
    intros _ w1 _ Hw1. by apply save_gains.
  - apply (bind_db_keeps (gains_only nm qs d0)); [by apply add_to_group_gains|].
    intros _ w1 _ Hw1. by apply save_gains.
  - apply (bind_db_keeps (gains_only nm qs d0)); [by apply add_to_group_gains|].
    by intros _ w1 _ Hw1.
Qed.

End Gains.

(** X13. A promotion changes who belongs to what only for the selected
    accounts and only in its own group, whatever its outcome: on tables
    where the ids of the groups are unique and every row of the relation
    names a group of the table, membership in a group of any other name is
    the same before and after, for every account, and so is every
    membership of an account that was not selected. *)
Theorem promotions_join_selected_only fault action nm qs w :
  (action, nm) ∈ [(add_to_admin fault, "admin"); (add_to_core fault, "core");
                  (add_to_pickleader fault, "pickleader");
                  (add_to_volunteer fault, "volunteer");
                  (add_to_owner fault, "owner")] →
  NoDup (gid <$> auth_group (db w)) →
  db_fk (db w) →
  let d' := db (action qs w).1 in
  (∀ j nm', nm' ≠ nm → belongs d' j nm' ↔ belongs (db w) j nm') ∧
  (∀ j nm', ¬ selected qs j → belongs d' j nm' ↔ belongs (db w) j nm').
Proof.
  destruct (actions_as_loops fault) as (_ & E2 & E3 & E4 & E5 & E6 & _).
  rewrite !elem_of_cons, elem_of_nil.
  intros Hin Hnd Hfk d'.
  assert (Hpre : Forall (λ u, u ∈ qs) qs) by by apply Forall_forall.
  assert (Hgain : gains_only nm qs (db w) d' ∧ grows (db w) d').
  { unfold d'.
    destruct Hin as [[= -> ->]|[[= -> ->]|[[= -> ->]|[[= -> ->]|[[= -> ->]|[]]]]]];
      rewrite ?E2, ?E3, ?E4, ?E5, ?E6;
      (split;
       [ apply (for_each_preserves _ (λ u, u ∈ qs)
                  (λ w1, gains_only _ qs (db w) (db w1)));
           [|done|by apply gains_only_refl];
         intros u w0 Hu Hw0;
         destruct (promotion_bodies_gain fault _ qs (db w) u w0 Hu Hw0)
           as (? & ? & ?); auto
       | apply (for_each_preserves _ (λ _, True) (λ w1, kept (db w) (db w1)));
           [|by apply Forall_true|apply kept_refl];
         intros u w0 _ Hw0;
         destruct (promotion_bodies_kept fault (db w) u w0 Hw0) as (? & ? & ?);
         done ]). }
  destruct Hgain as [(_ & _ & Hb) Hgrows].
  split; intros j nm' Hcond; split.
  - intros Hbel. destruct (Hb j nm' Hbel) as [?|[? _]]; done.
  - by apply belongs_grows.
  - intros Hbel. destruct (Hb j nm' Hbel) as [?|[_ ?]]; done.
  - by apply belongs_grows.
Qed.

(** ** The actions and the columns together *)

Section Together.

Variable fault : nat → bool.

Lemma clear_groups_run qs w w' qs' :
  clear_groups fault qs w = (w', Ok qs') →
  Forall (cleared (db w')) qs ∧
  Forall2 (λ u u', u' = set_is_staff false (set_is_superuser false u)) qs qs'.
Proof.
  unfold clear_groups. intros Hrun. split.
  - eapply for_each_establishes with
      (Pre := λ _, True) (Inv := λ _, True) (Post := λ w u, cleared (db w) u)
      in Hrun as (_ & Hpost & _); [done| |by apply Forall_true|done].
    intros u w0 w1 u' _ _ Hbody.
    apply clear_groups_step in Hbody as (? & ? & _). auto.
  - eapply for_each_objects; [|exact Hrun].
    intros u w0 w1 u' Hbody.
    by apply clear_groups_step in Hbody as (_ & _ & ->).
Qed.

Lemma clear_groups_completes_later qs w :
  quiet fault w → Forall (λ u, is_Some (pk u)) qs →
  ∃ w' qs', clear_groups fault qs w = (w', Ok qs') ∧ clock w ≤ clock w'.
Proof.
  intros Hq Hqs. unfold clear_groups.
  edestruct (for_each_completes fault) with
    (Pre := λ u, is_Some (pk u)) (Inv := λ _ : World, True)
    as (w' & qs' & Hrun & _ & Hle); [|exact Hqs|done|exact Hq|by eauto].
  intros u w0 Hk _ Hq0.
  destruct (groups_clear_quiet fault u w0 Hk Hq0) as (w1 & Hrun & _ & Hle).
  rewrite (bind_Ok_intro _ _ _ _ _ Hrun). cbv zeta.
  destruct (save_quiet fault (set_is_staff false (set_is_superuser false u)) w1)
    as (w2 & u' & Hsave & _ & Hle2); [by eapply quiet_later|].
  exists w2, u'. split_and!; [done|done|lia].
Qed.

Lemma add_to_admin_run qs w w' qs' :
  add_to_admin fault qs w = (w', Ok qs') →
  Forall (promoted (db w')) qs ∧
  Forall2 (λ u u', u' = set_is_staff true (set_is_superuser true u)) qs qs'.
Proof.
  unfold add_to_admin. intros Hrun. split.
  - eapply for_each_establishes with
      (Pre := λ _, True) (Inv := λ _, True) (Post := λ w u, promoted (db w) u)
      in Hrun as (_ & Hpost & _); [done| |by apply Forall_true|done].
    intros u w0 w1 u' _ _ Hbody.
    apply add_to_admin_step in Hbody as (? & ? & _). auto.
  - eapply for_each_objects; [|exact Hrun].
    intros u w0 w1 u' Hbody.
    by apply add_to_admin_step in Hbody as (_ & _ & ->).
Qed.

(** Deactivating accounts that are no superusers and no staff: what the
    rows of the accounts are when the action reaches its end. *)
Lemma deactivate_account_plain qs w w' qs' :
  Forall (λ u, is_Some (pk u) ∧ is_superuser u = false ∧ is_staff u = false) qs →
  deactivate_account fault qs w = (w', Ok qs') →
  auth_group (db w') = auth_group (db w) ∧
  auth_user_groups (db w') = auth_user_groups (db w) ∧
  Forall (λ u, ∃ k r, pk u = Some k ∧ users (db w') !! k = Some r ∧
            is_active r = false ∧ is_superuser r = false ∧ is_staff r = false) qs ∧
  Forall (λ u', is_active u' = false ∧ is_superuser u' = false ∧
                is_staff u' = false) qs'.
Proof.
  rewrite deactivate_account_body. intros Hqs Hrun.
  assert (Hstep : ∀ u w0 w1 u',
    is_Some (pk u) ∧ is_superuser u = false ∧ is_staff u = false →
    deactivate_body fault u w0 = (w1, Ok u') →
    ∃ k, pk u = Some k ∧ u' = set_is_active false u ∧
      db w1 = mkDB (<[k := set_is_active false u]> (users (db w0)))
                   (auth_group (db w0)) (auth_user_groups (db w0))).
  { intros u w0 w1 u' ([k Hk] & Hsu & _) Hbody.
    pose proof (deactivate_body_Ok_inv fault _ _ _ _ _ Hk Hbody) as Hinv.
    rewrite Hsu in Hinv. destruct Hinv as (? & _ & ?). by exists k. }
  split_and!.
  - eapply for_each_establishes with
      (Pre := λ u, is_Some (pk u) ∧ is_superuser u = false ∧ is_staff u = false)
      (Inv := λ w1, auth_group (db w1) = auth_group (db w))
      (Post := λ _ _, True) in Hrun as (? & _); [done| |done|done].
    intros u w0 w1 u' Hu Hw0 Hbody.
    destruct (Hstep _ _ _ _ Hu Hbody) as (k & _ & _ & ->). auto.
  - eapply for_each_establishes with
      (Pre := λ u, is_Some (pk u) ∧ is_superuser u = false ∧ is_staff u = false)
      (Inv := λ w1, auth_user_groups (db w1) = auth_user_groups (db w))
      (Post := λ _ _, True) in Hrun as (? & _); [done| |done|done].
    intros u w0 w1 u' Hu Hw0 Hbody.
    destruct (Hstep _ _ _ _ Hu Hbody) as (k & _ & _ & ->). auto.
  - eapply for_each_establishes with
      (Pre := λ u, is_Some (pk u) ∧ is_superuser u = false ∧ is_staff u = false)
      (Inv := λ _, True)
      (Post := λ w1 u, ∃ k r, pk u = Some k ∧ users (db w1) !! k = Some r ∧
                 is_active r = false ∧ is_superuser r = false ∧ is_staff r = false)
      in Hrun as (_ & ? & _); [done| |done|done].
    intros u w0 w1 u' Hu _ Hbody.
    destruct (Hstep _ _ _ _ Hu Hbody) as (k & Hk & _ & ->).
    destruct Hu as (_ & Hsu & Hst).
    split_and!; [done| |].
    + exists k, (set_is_active false u). cbn [users].
      split_and!; [done|apply lookup_insert_eq|done|done|done].
    + intros v _ (j & r & Hj & Hrow & Hr). cbn [users].
      destruct (decide (k = j)) as [->|Hne].
      * exists j, (set_is_active false u).
        split_and!; [done|apply lookup_insert_eq|done|done|done].
      * exists j, r. split; [done|]. by rewrite lookup_insert_ne.
  - eapply for_each_relates with
      (Pre := λ u, is_Some (pk u) ∧ is_superuser u = false ∧ is_staff u = false)
      (Inv := λ _, True)
      (R := λ u u', u' = set_is_active false u) in Hrun; [| |done|done].
    + eapply Forall2_transfer; [|exact Hrun|exact Hqs].
      by intros u u' -> (_ & ? & ?).
    + intros u w0 w1 u' Hu _ Hbody.
      by destruct (Hstep _ _ _ _ Hu Hbody) as (k & _ & -> & _).
Qed.

End Together.

(** X14. [clear_groups] reaches the end when no statement is refused
    (the objects having primary keys); and whenever it reaches the end,
    the columns of the list are blank for every object it hands back:
    [is_admin] and [is_core] show false and [get_groups] the empty
    string. *)
Theorem clear_groups_blanks_columns fault qs w :
  (quiet fault w → Forall (λ u, is_Some (pk u)) qs →
   ∃ w' qs', clear_groups fault qs w = (w', Ok qs')) ∧
  ∀ w' qs', clear_groups fault qs w = (w', Ok qs') →
    length qs' = length qs ∧
    Forall (λ u', is_admin u' = false ∧ is_core (db w') u' = Ok false ∧
                  get_groups (db w') u' = Ok EmptyString) qs'.
Proof.
  split; [apply clear_groups_completes|].
  intros w' qs' Hrun.
  apply clear_groups_run in Hrun as [Hpost Hobj].
  split; [symmetry; by eapply Forall2_length|].
  eapply Forall2_transfer; [|exact Hobj|exact Hpost].
  intros u u' -> (k & r & Hk & _ & _ & _ & Hno).
  split_and!; [done| |].
  - apply (is_core_belongs (db w') _ k); [done|].
    intros (g & _ & _ & Hm). by apply Hno in Hm.
  - unfold get_groups.
    change (pk (set_is_staff false (set_is_superuser false u))) with (pk u).
    by rewrite Hk, no_membership_groups_all.
Qed.

(** X15. [add_to_admin] shields from [deactivate_account]: it reaches
    the end when no statement is refused (the names of the groups being
    unique and the objects having primary keys); and whenever it reaches
    the end, the column [is_admin] shows true for every object it hands
    back and for the row of every selected account, and
    [deactivate_account], on the objects handed back or on the rows read
    again, in any world and under any schedule of faults, sends no
    statement and changes nothing. *)
Theorem add_to_admin_shields fault qs w :
  (quiet fault w → unique_names (db w) → Forall (λ u, is_Some (pk u)) qs →
   ∃ w' qs', add_to_admin fault qs w = (w', Ok qs')) ∧
  ∀ w' qs', add_to_admin fault qs w = (w', Ok qs') →
    length qs' = length qs ∧
    Forall (λ u', is_admin u' = true) qs' ∧
    (∀ fault2 w2, deactivate_account fault2 qs' w2 = (w2, Ok qs')) ∧
    Forall (λ u, ∃ k r, pk u = Some k ∧ users (db w') !! k = Some r ∧
              is_admin r = true ∧
              ∀ fault2 w2, deactivate_account fault2 [r] w2 = (w2, Ok [r])) qs.
Proof.
  split.
  { intros Hq Huniq Hqs.
    destruct (bulk_action_completes fault (add_to_admin fault) qs w)
      as (w' & qs' & Hrun & _); [|done|done|done|by eauto].
    unfold actions. apply list_elem_of_further, list_elem_of_here. }
  intros w' qs' Hrun.
  apply add_to_admin_run in Hrun as [Hpost Hobj].
  assert (Hsu : Forall (λ u', is_superuser u' = true) qs').
  { eapply Forall2_transfer; [|exact Hobj|exact Hpost]. by intros u u' -> _. }
  split_and!; [symmetry; by eapply Forall2_length|done| |].
  - intros fault2 w2. by apply deactivate_account_superusers.
  - eapply Forall_impl; [exact Hpost|].
    intros u (k & r & Hk & Hrow & Hr & _). exists k, r.
    split_and!; [done|done|done|].
    intros fault2 w2. apply deactivate_account_superusers.
    by apply Forall_singleton.
Qed.

(** X16. [clear_groups] lifts the shield: the two actions in a row reach
    their ends when no statement is refused (the objects having primary
    keys); and whenever [clear_groups] and then [deactivate_account] on
    the objects it handed back reach their ends, every selected account,
    a former superuser as well, has a row with [is_active], [is_superuser]
    and [is_staff] false and belongs to no group; so have the objects
    handed back. *)
Theorem clear_groups_then_deactivate fault qs w :
  (quiet fault w → Forall (λ u, is_Some (pk u)) qs →
   ∃ w1 qs1 w2 qs2, clear_groups fault qs w = (w1, Ok qs1) ∧
     deactivate_account fault qs1 w1 = (w2, Ok qs2)) ∧
  ∀ w1 qs1 w2 qs2,
    clear_groups fault qs w = (w1, Ok qs1) →
    deactivate_account fault qs1 w1 = (w2, Ok qs2) →
    Forall (λ u, ∃ k r, pk u = Some k ∧ users (db w2) !! k = Some r ∧
              is_active r = false ∧ is_superuser r = false ∧
              is_staff r = false ∧ groups_all (db w2) k = []) qs ∧
    length qs2 = length qs ∧
    Forall (λ u2, is_active u2 = false ∧ is_superuser u2 = false ∧
                  is_staff u2 = false) qs2.
Proof.
  split.
  { intros Hq Hqs.
    destruct (clear_groups_completes_later fault qs w Hq Hqs)
      as (w1 & qs1 & Hrun & Hle).
    destruct (deactivate_account_completes fault qs1 w1) as (w2 & qs2 & Hrun2);
      [by eapply quiet_later|].
    by exists w1, qs1, w2, qs2. }
  intros w1 qs1 w2 qs2 Hclear Hdeact.
  apply clear_groups_run in Hclear as [Hpost Hobj].
  assert (Hqs1 : Forall (λ u, is_Some (pk u) ∧ is_superuser u = false ∧
                              is_staff u = false) qs1).
  { eapply Forall2_transfer; [|exact Hobj|exact Hpost].
    intros u u' -> (k & r & Hk & _). split_and!; [by exists k|done|done]. }
  pose proof (Forall2_length _ _ _ Hobj) as Hlen1.
  assert (Hlen2 : length qs2 = length qs1).
  { rewrite deactivate_account_body in Hdeact.
    eapply for_each_objects with (R := λ _ _, True) in Hdeact; [|done].
    symmetry. by eapply Forall2_length. }
  destruct (deactivate_account_plain fault qs1 w1 w2 qs2 Hqs1 Hdeact)
    as (Hg & Hm & Hrows & Hobjs).
  split_and!; [|congruence|done].
  assert (Hrows' : Forall (λ u, ∀ k, pk u = Some k →
            ∃ r, users (db w2) !! k = Some r ∧ is_active r = false ∧
                 is_superuser r = false ∧ is_staff r = false) qs).
  { clear -Hobj Hrows. induction Hobj as [|u u' l l' Hu _ IH]; [constructor|].
    apply Forall_cons in Hrows as [(k & r & Hk & Hr) Hl].
    constructor; [|by apply IH].
    intros j Hj. subst u'. exists r.
    change (pk (set_is_staff false (set_is_superuser false u))) with (pk u) in Hk.
    assert (j = k) as -> by congruence. done. }
  rewrite Forall_forall in Hpost, Hrows'. apply Forall_forall. intros u Hu.
  destruct (Hpost u Hu) as (k & _ & Hk & _ & _ & _ & Hno).
  destruct (Hrows' u Hu k Hk) as (r & Hr & Ha & Hs & Hst).
  exists k, r. split_and!; try done.
  apply no_membership_groups_all. unfold no_membership. by rewrite Hm.
Qed.

(** ** The actions applied twice *)

Lemma filter_all {A : Type} (P : A → Prop) `{∀ x, Decision (P x)} (l : list A) :
  (∀ x, x ∈ l → P x) → filter P l = l.
Proof.
  induction l as [|a l IH]; intros Hl; [done|].
  rewrite filter_cons_True by apply Hl, list_elem_of_here.
  f_equal. apply IH. intros x Hx. by apply Hl, list_elem_of_further.
Qed.

Lemma joined_same_tables nm d d' u :
  auth_group d' = auth_group d → auth_user_groups d' = auth_user_groups d →
  joined nm d u → joined nm d' u.
Proof. intros Hg Hm. unfold joined. by rewrite Hg, Hm. Qed.

Lemma joined_same_pk nm d u v : pk u = pk v → joined nm d u → joined nm d v.
Proof. intros Hpk. unfold joined. by rewrite Hpk. Qed.

Section Twice.

Variable fault : nat → bool.

Lemma harmless_ret {A : Type} (a : A) w : harmless fault (mret a) a w.
Proof. unfold harmless. rewrite ret_run. cbn. auto. Qed.

Lemma harmless_bind {A B : Type} (m : M A) (f : A → M B) a b w :
  harmless fault m a w →
  (∀ w1, db w1 = db w → clock w ≤ clock w1 → harmless fault (f a) b w1) →
  harmless fault (m ≫= f) b w.
Proof.
  intros (Hdb & Hcl & Hres & Hq) Hf. unfold harmless. rewrite bind_run.
  destruct (m w) as [w1 r]. cbn [fst snd] in *. destruct Hres as [-> | ->].
  - destruct (Hf w1 Hdb Hcl) as (Hdb' & Hcl' & Hres' & Hq').
    split_and!; [congruence|lia|done|].
    intros Hqw. apply Hq'. by eapply quiet_later.
  - cbn. split_and!; [done|done|by right|]. intros Hqw. by specialize (Hq Hqw).
Qed.

Lemma harmless_for_each body (S : DB → AuthUser → Prop) :
  (∀ u w, S (db w) u → harmless fault (body u) u w) →
  ∀ qs w, Forall (S (db w)) qs → harmless fault (for_each body qs) qs w.
Proof.
  intros Hbody qs. induction qs as [|u rest IH]; intros w Hqs.
  { apply harmless_ret. }
  apply Forall_cons in Hqs as [Hu Hrest]. cbn [for_each].
  apply (harmless_bind _ _ u); [by apply Hbody|].
  intros w1 Hdb Hcl.
  apply (harmless_bind _ _ rest); [apply IH; by rewrite Hdb|].
  intros w2 _ _. apply harmless_ret.
Qed.

Lemma harmless_tick {A : Type} (m : M A) (a : A) w :
  m w = (tick w, if fault (clock w) then Raise DatabaseError else Ok a) →
  harmless fault m a w.
Proof.
  intros E. unfold harmless. rewrite E. cbn [fst snd tick db clock].
  destruct (fault (clock w)) eqn:F.
  - split_and!; [done|lia|by right|]. intros Hq. rewrite Hq in F; [done|lia].
  - split_and!; [done|lia|by left|done].
Qed.

Lemma harmless_save u w :
  loaded (db w) u → harmless fault (Model_save fault u) u w.
Proof. intros (k & Hk & Hrow). by apply harmless_tick, (save_same fault u k). Qed.

Lemma harmless_add_to_group u nm w :
  joined nm (db w) u → harmless fault (add_to_group fault u nm) () w.
Proof.
  intros (k & g & Hk & Hf & Hin). unfold add_to_group.
  apply (harmless_bind _ _ (g, false)).
  { by apply harmless_tick, get_or_create_found. }
  intros w1 Hdb _. cbv beta iota.
  apply harmless_tick, (groups_add_present fault u k g); [done|by rewrite Hdb].
Qed.

Lemma harmless_groups_clear u k w :
  pk u = Some k → no_membership (db w) k →
  harmless fault (groups_clear fault u) () w.
Proof.
  intros Hk Hno. apply harmless_tick.
  unfold groups_clear, groups_manager. rewrite Hk, bind_run, ret_run.
  apply execute_readonly.
  rewrite filter_all by (intros m Hm; by apply Hno). by destruct (db w).
Qed.

(** On an object it has settled, the body of each loop is harmless. *)
Lemma bodies_harmless u w :
  (settled_clear (db w) u → harmless fault (clear_body fault u) u w) ∧
  (settled_admin (db w) u → harmless fault (admin_body fault u) u w) ∧
  (∀ nm, settled_staff nm (db w) u →
         harmless fault (staff_group_body fault nm u) u w) ∧
  (∀ nm, joined nm (db w) u → harmless fault (group_only_body fault nm u) u w) ∧
  (settled_deactivate (db w) u → harmless fault (deactivate_body fault u) u w).
Proof.
  unfold clear_body, admin_body, staff_group_body, group_only_body,
    deactivate_body, add_to_staff.
  split_and!.
  - intros (Hl & Hsu & Hst & Hno).
    destruct (Hl) as (k & Hk & _).
    apply (harmless_bind _ _ ()); [by apply (harmless_groups_clear u k); auto|].
    intros w1 Hdb _. cbv zeta.
    assert (set_is_staff false (set_is_superuser false u) = u) as ->.
    { destruct u. cbn in *. by rewrite Hsu, Hst. }
    apply harmless_save. by rewrite Hdb.
  - intros (Hj & Hl & Hst & Hsu).
    apply (harmless_bind _ _ ()); [by apply harmless_add_to_group|].
    intros w1 Hdb _. cbv zeta.
    assert (set_is_staff true (set_is_superuser true u) = u) as ->.
    { destruct u. cbn in *. by rewrite Hsu, Hst. }
    apply harmless_save. by rewrite Hdb.
  - intros nm (Hj & Hl & Hst).
    apply (harmless_bind _ _ ()); [by apply harmless_add_to_group|].
    intros w1 Hdb _. cbv zeta.
    assert (set_is_staff true u = u) as ->.
    { destruct u. cbn in *. by rewrite Hst. }
    apply harmless_save. by rewrite Hdb.
  - intros nm Hj.
    apply (harmless_bind _ _ ()); [by apply harmless_add_to_group|].
    intros w1 _ _. apply harmless_ret.
  - intros [Hsu|[Hl Hact]].
    + rewrite Hsu. cbn [negb]. apply harmless_ret.
    + destruct (is_superuser u); cbn [negb]; [apply harmless_ret|]. cbv zeta.
      assert (set_is_active false u = u) as ->.
      { destruct u. cbn in *. by rewrite Hact. }
      by apply harmless_save.
Qed.

(** The first pass of [add_to_group]: the account is joined to the one
    group of that name, and the accounts joined before stay so. *)
Lemma add_to_group_joined u nm w w1 :
  add_to_group fault u nm w = (w1, Ok ()) →
  joined nm (db w1) u ∧ ∀ v, joined nm (db w) v → joined nm (db w1) v.
Proof.
  intros (k & g & Hk & _ & Hf & Hin & Hgroups & Hms)%add_to_group_Ok_inv.
  split; [by exists k, g|].
  intros v (j & g' & Hj & Hf' & Hin').
  assert (Hsame : auth_group (db w1) = auth_group (db w)).
  { destruct Hgroups as [?|[Hnone _]]; [done|]. by rewrite Hnone in Hf'. }
  exists j, g'. rewrite Hsame. split_and!; [done|done|].
  destruct Hms as [[_ ->]|[_ ->]]; [done|]. apply elem_of_app. auto.
Qed.

Lemma then_save_joined u v nm w w1 v' :
  (add_to_group fault u nm;; Model_save fault v) w = (w1, Ok v') →
  joined nm (db w1) u ∧ ∀ x, joined nm (db w) x → joined nm (db w1) x.
Proof.
  intros H. apply bind_Ok_inv in H as (wa & [] & Hg & Hs).
  apply add_to_group_joined in Hg as [Hu Hrest].
  apply save_Ok_inv in Hs as (_ & _ & Hdb).
  assert (Hsame : ∀ x, joined nm (db wa) x → joined nm (db w1) x).
  { intros x. apply joined_same_tables; by rewrite Hdb. }
  split; auto.
Qed.

Lemma then_ret_joined u nm w w1 u' :
  (add_to_group fault u nm;; mret u) w = (w1, Ok u') →
  joined nm (db w1) u ∧ ∀ x, joined nm (db w) x → joined nm (db w1) x.
Proof.
  intros H. apply bind_Ok_inv in H as (wa & [] & Hg & Hs).
  injection Hs as <- <-. by apply add_to_group_joined in Hg.
Qed.

(** A loop whose body writes the row of its object as [f] makes it:
    every object handed back is the row of its account. *)
Lemma for_each_rows body (f : AuthUser → AuthUser) d0 qs w w' qs' :
  (∀ u, pk (f u) = pk u) →
  (∀ u k w0 w1 u', pk u = Some k → body u w0 = (w1, Ok u') →
     u' = f u ∧ users (db w1) = <[k := f u]> (users (db w0))) →
  Forall (loaded d0) qs →
  for_each body qs w = (w', Ok qs') →
  qs' = f <$> qs ∧ Forall (loaded (db w')) qs'.
Proof.
  intros Hpk Hbody Hqs Hrun.
  assert (Hobj : qs' = f <$> qs).
  { eapply for_each_relates with
      (Pre := loaded d0) (Inv := λ _, True) (R := λ u u', u' = f u)
      in Hrun; [| |done|done].
    - clear -Hrun. induction Hrun; [done|]. cbn. by f_equal.
    - intros u w0 w1 u' (k & Hk & _) _ Hb.
      by destruct (Hbody _ _ _ _ _ Hk Hb) as [-> _]. }
  split; [done|]. rewrite Hobj. apply Forall_fmap.
  eapply for_each_establishes with
    (Pre := loaded d0) (Inv := λ _, True)
    (Post := λ w1 u, loaded (db w1) (f u))
    in Hrun as (_ & ? & _); [done| |done|done].
  intros u w0 w1 u' Hu _ Hb. destruct (Hu) as (k & Hk & _).
  destruct (Hbody _ _ _ _ _ Hk Hb) as [_ Husers].
  split_and!; [done| |].
  - exists k. rewrite Hpk, Husers. split; [done|]. apply lookup_insert_eq.
  - intros v Hv (j & Hj & Hrow). exists j. split; [done|].
    rewrite Hpk in Hj. rewrite Husers.
    destruct (decide (k = j)) as [->|Hne].
    + assert (u = v) as -> by (eapply loaded_inj; eauto).
      apply lookup_insert_eq.
    + by rewrite lookup_insert_ne.
Qed.

Lemma clear_body_row u k w0 w1 u' :
  pk u = Some k → clear_body fault u w0 = (w1, Ok u') →
  u' = set_is_staff false (set_is_superuser false u) ∧
  users (db w1) = <[k := set_is_staff false (set_is_superuser false u)]>
                    (users (db w0)).
Proof.
  intros Hk H. unfold clear_body in H.
  apply bind_Ok_inv in H as (wa & [] & Hc & Hs).
  apply groups_clear_Ok_inv in Hc as (k' & _ & Husers & _).
  cbv zeta in Hs.
  assert (Hk' : pk (set_is_staff false (set_is_superuser false u)) = Some k) by done.
  destruct (save_keyed_Ok_inv _ _ _ _ _ _ Hk' Hs) as (-> & _ & ->).
  by rewrite <- Husers.
Qed.

Lemma admin_body_row u k w0 w1 u' :
  pk u = Some k → admin_body fault u w0 = (w1, Ok u') →
  u' = set_is_staff true (set_is_superuser true u) ∧
  users (db w1) = <[k := set_is_staff true (set_is_superuser true u)]>
                    (users (db w0)).
Proof.
  intros Hk H. unfold admin_body in H.
  apply bind_Ok_inv in H as (wa & [] & Hg & Hs).
  apply add_to_group_Ok_inv in Hg as (k' & g & _ & Husers & _).
  cbv zeta in Hs.
  assert (Hk' : pk (set_is_superuser true u) = Some k) by done.
  destruct (add_to_staff_Ok_inv _ _ _ _ _ _ Hk' Hs) as (-> & _ & ->).
  by rewrite <- Husers.
Qed.

Lemma staff_group_body_row nm u k w0 w1 u' :
  pk u = Some k → staff_group_body fault nm u w0 = (w1, Ok u') →
  u' = set_is_staff true u ∧
  users (db w1) = <[k := set_is_staff true u]> (users (db w0)).
Proof.
  intros Hk H. unfold staff_group_body in H.
  apply bind_Ok_inv in H as (wa & [] & Hg & Hs).
  apply add_to_group_Ok_inv in Hg as (k' & g & _ & Husers & _).
  destruct (add_to_staff_Ok_inv _ _ _ _ _ _ Hk Hs) as (-> & _ & ->).
  by rewrite <- Husers.
Qed.

(** What the first run of each action leaves of the objects it hands
    back. *)
Lemma clear_groups_settles qs w w1 qs1 :
  Forall (loaded (db w)) qs →
  clear_groups fault qs w = (w1, Ok qs1) →
  Forall (settled_clear (db w1)) qs1.
Proof.
  intros Hqs Hrun.
  destruct (clear_groups_run fault qs w w1 qs1 Hrun) as [Hpost _].
  destruct (actions_as_loops fault) as (E & _). rewrite E in Hrun.
  destruct (for_each_rows (clear_body fault)
              (λ u, set_is_staff false (set_is_superuser false u))
              (db w) qs w w1 qs1) as [-> Hrows];
    [done|apply clear_body_row|done|done|].
  apply Forall_fmap. apply (proj1 (Forall_fmap _ _ _)) in Hrows.
  rewrite Forall_forall in Hpost, Hrows. apply Forall_forall. intros u Hu.
  destruct (Hpost u Hu) as (k & _ & Hk & _ & _ & _ & Hno).
  unfold settled_clear. cbn. split_and!; [by apply Hrows|done|done|].
  intros j Hj. assert (j = k) as -> by (cbn in Hj; congruence). done.
Qed.

Lemma add_to_admin_settles qs w w1 qs1 :
  Forall (loaded (db w)) qs →
  add_to_admin fault qs w = (w1, Ok qs1) →
  Forall (settled_admin (db w1)) qs1.
Proof.
  intros Hqs Hrun.
  destruct (actions_as_loops fault) as (_ & E & _). rewrite E in Hrun.
  destruct (for_each_rows (admin_body fault)
              (λ u, set_is_staff true (set_is_superuser true u))
              (db w) qs w w1 qs1) as [-> Hrows];
    [done|apply admin_body_row|done|done|].
  eapply for_each_establishes with
    (Pre := λ _, True) (Inv := λ _, True)
    (Post := λ w0 u, joined "admin" (db w0) u)
    in Hrun as (_ & Hj & _); [| |by apply Forall_true|done].
  - apply Forall_fmap. apply (proj1 (Forall_fmap _ _ _)) in Hrows.
    rewrite Forall_forall in Hj, Hrows. apply Forall_forall. intros u Hu.
    unfold settled_admin. cbn. split_and!; [|by apply Hrows|done|done].
    eapply joined_same_pk; [|by apply Hj]. done.
  - intros u w0 w' u' _ _ Hb. unfold admin_body, add_to_staff in Hb.
    apply then_save_joined in Hb as [? ?]. auto.
Qed.

Lemma staff_group_settles nm qs w w1 qs1 :
  Forall (loaded (db w)) qs →
  for_each (staff_group_body fault nm) qs w = (w1, Ok qs1) →
  Forall (settled_staff nm (db w1)) qs1.
Proof.
  intros Hqs Hrun.
  destruct (for_each_rows (staff_group_body fault nm) (set_is_staff true)
              (db w) qs w w1 qs1) as [-> Hrows];
    [done|apply staff_group_body_row|done|done|].
  eapply for_each_establishes with
    (Pre := λ _, True) (Inv := λ _, True)
    (Post := λ w0 u, joined nm (db w0) u)
    in Hrun as (_ & Hj & _); [| |by apply Forall_true|done].
  - apply Forall_fmap. apply (proj1 (Forall_fmap _ _ _)) in Hrows.
    rewrite Forall_forall in Hj, Hrows. apply Forall_forall. intros u Hu.
    unfold settled_staff. cbn. split_and!; [|by apply Hrows|done].
    eapply joined_same_pk; [|by apply Hj]. done.
  - intros u w0 w' u' _ _ Hb. unfold staff_group_body, add_to_staff in Hb.
    apply then_save_joined in Hb as [? ?]. auto.
Qed.

Lemma group_only_settles nm qs w w1 qs1 :
  for_each (group_only_body fault nm) qs w = (w1, Ok qs1) →
  Forall (joined nm (db w1)) qs1.
Proof.
  intros Hrun.
  destruct (group_only_loop fault nm qs w w1 qs1 Hrun) as (-> & _).
  eapply for_each_establishes with
    (Pre := λ _, True) (Inv := λ _, True)
    (Post := λ w0 u, joined nm (db w0) u)
    in Hrun as (_ & Hj & _); [done| |by apply Forall_true|done].
  intros u w0 w' u' _ _ Hb. unfold group_only_body in Hb.
  apply then_ret_joined in Hb as [? ?]. auto.
Qed.

Lemma deactivate_account_settles qs w w1 qs1 :
  Forall (loaded (db w)) qs →
  deactivate_account fault qs w = (w1, Ok qs1) →
  Forall (settled_deactivate (db w1)) qs1.
Proof.
  intros Hqs Hrun.
  pose proof (deactivate_account_rows fault qs w w1 qs1 Hqs Hrun) as Hrows.
  rewrite deactivate_account_body in Hrun.
  eapply for_each_relates with
    (Pre := loaded (db w)) (Inv := λ _, True)
    (R := λ u u', if is_superuser u then u' = u else u' = set_is_active false u)
    in Hrun; [| |done|done].
  - clear Hqs. induction Hrun as [|u u' l l' Hu _ IH]; [constructor|].
    apply Forall_cons in Hrows as [(k & Hk & Hrow) Hl].
    constructor; [|by apply IH].
    destruct (is_superuser u) eqn:Hsu; subst u'.
    + by left.
    + right. split; [|done]. exists k. split; [done|]. by apply Hrow.
  - intros u w0 w' u' (k & Hk & _) _ Hb. split; [done|].
    pose proof (deactivate_body_Ok_inv fault _ _ _ _ _ Hk Hb) as Hinv.
    destruct (is_superuser u); by destruct Hinv as [? ?].
Qed.

End Twice.

(** X17. Every action is idempotent.  On a queryset evaluated on the
    database the action reaches the end when no statement is refused (the
    names of the groups being unique); and once it has reached its end,
    applying it again to the objects it handed back changes no table,
    whatever the outcome of the second run, which hands back the same
    objects whenever it reaches its end, and does reach it when no
    statement is refused. *)
Theorem bulk_actions_idempotent fault action qs w :
  action ∈ actions fault →
  Forall (loaded (db w)) qs →
  (quiet fault w → unique_names (db w) →
   ∃ w1 qs1, action qs w = (w1, Ok qs1)) ∧
  ∀ w1 qs1, action qs w = (w1, Ok qs1) →
    let again := action qs1 w1 in
    db again.1 = db w1 ∧
    (∀ qs2, again.2 = Ok qs2 → qs2 = qs1) ∧
    (quiet fault w1 → again.2 = Ok qs1).
Proof.
  intros Hin Hqs. split.
  { intros Hq Huniq.
    destruct (bulk_action_completes fault action qs w)
      as (w1 & qs1 & Hrun & _); [done|done|done|by eapply loaded_has_pk|by eauto]. }
  intros w1 qs1 Hrun again.
  assert (Hharm : harmless fault (action qs1) qs1 w1).
  { destruct (actions_as_loops fault) as (E1 & E2 & E3 & E4 & E5 & E6 & E7).
    revert Hin. unfold actions. rewrite !elem_of_cons, elem_of_nil.
    intros [->|[->|[->|[->|[->|[->|[->|[]]]]]]]].
    - pose proof (clear_groups_settles fault qs w w1 qs1 Hqs Hrun) as Hs.
      rewrite E1. eapply harmless_for_each; [|exact Hs].
      intros u w0. apply bodies_harmless.
    - pose proof (add_to_admin_settles fault qs w w1 qs1 Hqs Hrun) as Hs.
      rewrite E2. eapply harmless_for_each; [|exact Hs].
      intros u w0. apply bodies_harmless.
    - rewrite E3 in *.
      pose proof (staff_group_settles fault _ qs w w1 qs1 Hqs Hrun) as Hs.
      eapply harmless_for_each; [|exact Hs].
      intros u w0. apply bodies_harmless.
    - rewrite E4 in *.
      pose proof (staff_group_settles fault _ qs w w1 qs1 Hqs Hrun) as Hs.
      eapply harmless_for_each; [|exact Hs].
      intros u w0. apply bodies_harmless.
    - rewrite E5 in *.
      pose proof (group_only_settles fault _ qs w w1 qs1 Hrun) as Hs.
      eapply harmless_for_each; [|exact Hs].
      intros u w0. apply bodies_harmless.
    - rewrite E6 in *.
      pose proof (group_only_settles fault _ qs w w1 qs1 Hrun) as Hs.
      eapply harmless_for_each; [|exact Hs].
      intros u w0. apply bodies_harmless.
    - pose proof (deactivate_account_settles fault qs w w1 qs1 Hqs Hrun) as Hs.
      rewrite E7. eapply harmless_for_each; [|exact Hs].
      intros u w0. apply bodies_harmless. }
  destruct Hharm as (Hdb & _ & Hres & Hquiet). fold again in Hdb, Hres, Hquiet.
  split_and!; [done| |done].
  intros qs2 E. destruct Hres as [Hres|Hres]; congruence.
Qed.

(** * The further properties on the concrete accounts *)

Lemma tables_db_wf : db_wf tables.
Proof.
  split_and!.
  - intros nm. apply (length_filter _ [mkGroup 1 "core"]).
  - apply NoDup_singleton.
  - apply NoDup_singleton.
Qed.

Lemma tables_db_fk : db_fk tables.
Proof. intros m ->%list_elem_of_singleton. apply list_elem_of_here. Qed.


Lemma creation_save_inserts_witness :
  ∃ k user w',
    CustomUserCreationForm.save never hasher confirmed true start = (w', Ok user) ∧
    user = set_pk k (set_password_hash (hasher (PyStr "secret"))
                       (CustomUserCreationForm.instance confirmed)) ∧
    users (db start) !! k = None ∧
    users (db w') !! k = Some user ∧
    (∀ j r, users (db start) !! j = Some r → users (db w') !! j = Some r) ∧
    (∀ j, j ≠ k → users (db w') !! j = users (db start) !! j) ∧
    auth_group (db w') = auth_group (db start) ∧
    auth_user_groups (db w') = auth_user_groups (db start) ∧
    clock w' = S (clock start).
Proof.
  apply (creation_save_inserts never hasher confirmed (PyStr "secret") start); run.
Defined.




Lemma bulk_actions_keep_constraints_witness :
  db_wf (db (add_to_admin second_refused [alice; bob] start).1).
Proof.
  apply (bulk_actions_keep_constraints second_refused
           (add_to_admin second_refused) [alice; bob] start).
  - unfold actions. apply list_elem_of_further, list_elem_of_here.
  - apply tables_db_wf.
Defined.

Lemma promotions_never_remove_witness :
  let d' := db (add_to_owner second_refused [alice; bob] start).1 in
  auth_group (db start) ⊆ auth_group d' ∧
  auth_user_groups (db start) ⊆ auth_user_groups d' ∧
  ∀ k, is_Some (users (db start) !! k) → is_Some (users d' !! k).
Proof.
  apply (promotions_never_remove second_refused
           (add_to_owner second_refused) [alice; bob] start).
  do 4 apply list_elem_of_further. apply list_elem_of_here.
Defined.

Lemma clear_groups_frame_witness :
  (2, 1) ∈ auth_user_groups (db (clear_groups never [alice; root] start).1) ∧
  users (db (clear_groups never [alice; root] start).1) !! 2 = Some bob.
Proof.
  destruct (clear_groups_frame never [alice; root] start) as (_ & _ & Hm & Hu).
  assert (Hns : ¬ selected [alice; root] 2).
  { intros (u & Hin & Hk). revert Hk.
    apply elem_of_cons in Hin as [->|Hin]; [done|].
    by apply list_elem_of_singleton in Hin as ->. }
  split.
  - apply (Hm (2, 1)); [apply list_elem_of_here|exact Hns].
  - rewrite (Hu 2 Hns). run.
Defined.

Lemma add_to_core_sets_staff_witness :
  ∃ w' qs', add_to_core never [alice; carol] start = (w', Ok qs') ∧
    qs' = set_is_staff true <$> [alice; carol] ∧
    Forall (λ u', loaded (db w') u' ∧ is_staff u' = true ∧
                  is_core (db w') u' = Ok true) qs' ∧
    (∀ k, ¬ selected [alice; carol] k →
          users (db w') !! k = users (db start) !! k).
Proof.
  eexists _, _. split; [run|].
  apply (add_to_core_sets_staff never [alice; carol] start); [all_loaded|run].
Defined.

Lemma add_to_pickleader_sets_staff_witness :
  ∃ w' qs', add_to_pickleader never [alice; bob] start = (w', Ok qs') ∧
    qs' = set_is_staff true <$> [alice; bob] ∧
    Forall (λ u, ∃ k, pk u = Some k ∧
              users (db w') !! k = Some (set_is_staff true u) ∧
              groups_filter_exists (db w') k "pickleader" = true) [alice; bob] ∧
    (∀ k, ¬ selected [alice; bob] k →
          users (db w') !! k = users (db start) !! k).
Proof.
  eexists _, _. split; [run|].
  apply (add_to_pickleader_sets_staff never [alice; bob] start); [all_loaded|run].
Defined.

Lemma add_to_owner_joins_only_witness :
  ∃ w' qs', add_to_owner never [alice; bob] start = (w', Ok qs') ∧
    qs' = [alice; bob] ∧
    users (db w') = users (db start) ∧
    Forall (λ u, ∃ k, pk u = Some k ∧
              groups_filter_exists (db w') k "owner" = true) [alice; bob].
Proof.
  eexists _, _. split; [run|].
  apply (add_to_owner_joins_only never [alice; bob] start). run.
Defined.

Lemma promotions_join_selected_only_witness :
  let d' := db (add_to_owner second_refused [alice; carol] start).1 in
  (∀ j nm', nm' ≠ "owner" → belongs d' j nm' ↔ belongs (db start) j nm') ∧
  (∀ j nm', ¬ selected [alice; carol] j →
            belongs d' j nm' ↔ belongs (db start) j nm').
Proof.
  apply (promotions_join_selected_only second_refused
           (add_to_owner second_refused) "owner" [alice; carol] start).
  - do 4 apply list_elem_of_further. apply list_elem_of_here.
  - apply tables_db_wf.
  - apply tables_db_fk.
Defined.

Lemma clear_groups_blanks_columns_witness :
  ∃ w' qs', clear_groups never [bob; root] start = (w', Ok qs') ∧
    length qs' = length [bob; root] ∧
    Forall (λ u', is_admin u' = false ∧ is_core (db w') u' = Ok false ∧
                  get_groups (db w') u' = Ok EmptyString) qs'.
Proof.
  eexists _, _. split; [run|].
  apply (clear_groups_blanks_columns never [bob; root] start). run.
Defined.

Lemma add_to_admin_shields_witness :
  ∃ w' qs', add_to_admin never [alice; bob] start = (w', Ok qs') ∧
    length qs' = length [alice; bob] ∧
    Forall (λ u', is_admin u' = true) qs' ∧
    (∀ fault2 w2, deactivate_account fault2 qs' w2 = (w2, Ok qs')) ∧
    Forall (λ u, ∃ k r, pk u = Some k ∧ users (db w') !! k = Some r ∧
              is_admin r = true ∧
              ∀ fault2 w2, deactivate_account fault2 [r] w2 = (w2, Ok [r]))
           [alice; bob].
Proof.
  eexists _, _. split; [run|].
  apply (add_to_admin_shields never [alice; bob] start). run.
Defined.

Lemma clear_groups_then_deactivate_witness :
  ∃ w1 qs1 w2 qs2,
    is_superuser root = true ∧
    clear_groups never [bob; root] start = (w1, Ok qs1) ∧
    deactivate_account never qs1 w1 = (w2, Ok qs2) ∧
    Forall (λ u, ∃ k r, pk u = Some k ∧ users (db w2) !! k = Some r ∧
              is_active r = false ∧ is_superuser r = false ∧
              is_staff r = false ∧ groups_all (db w2) k = []) [bob; root] ∧
    length qs2 = length [bob; root] ∧
    Forall (λ u2, is_active u2 = false ∧ is_superuser u2 = false ∧
                  is_staff u2 = false) qs2.
Proof.
  eexists _, _, _, _. split; [run|]. split; [run|]. split; [run|].
  eapply (proj2 (clear_groups_then_deactivate never [bob; root] start)); run.
Defined.

Lemma bulk_actions_idempotent_witness :
  ∃ w1 qs1, clear_groups never [bob; root] start = (w1, Ok qs1) ∧
    let again := clear_groups never qs1 w1 in
    db again.1 = db w1 ∧
    (∀ qs2, again.2 = Ok qs2 → qs2 = qs1) ∧
    (quiet never w1 → again.2 = Ok qs1).
Proof.
  eexists _, _. split; [run|].
  apply (bulk_actions_idempotent never (clear_groups never) [bob; root] start);
    [apply list_elem_of_here|all_loaded|run].
Defined.
